(** * Hydration of streamed MDX: a shallow embedding of
      [packages/ai-jsx/src/react/jit-ui/mdx.tsx]

    The file models the async generator [MdxChatCompletion] together with its
    two local helpers [hydrateMDX] and [convertAstToComponent].  Effects are
    the ones the source has: writes to the [logger] collaborator and thrown
    exceptions.  Both are kept explicit in a small logging/exception monad
    [Eff].  The collaborators that live outside the file ([compile] of
    [@mdx-js/mdx], [collectComponents], [render] of the component context)
    are parameters of the development. *)

From Stdlib Require Import String Ascii List Bool.
From stdpp Require Import base option list strings gmap.

Set Warnings "-register-all".
Local Open Scope string_scope.
Local Open Scope list_scope.

(** ** JavaScript values met in attribute positions

    [attr.value] of an MDX JSX attribute is a string, [null] (a bare
    attribute), [undefined], or an expression object carrying a [type] tag
    (mdast's [mdxJsxAttributeValueExpression]).  [JsTrue] is the value the
    reducer stores for a bare attribute. *)
Inductive JsValue : Type :=
| JsNull
| JsUndefined
| JsTrue
| JsString (s : string)
| JsObject (type : option string) (value : string).

(** [attributes?: { type: string; name: string; value: string }[]] *)
Record Attr : Type := mkAttr {
  attr_type : string;
  attr_name : string;
  attr_value : JsValue;
}.

(** [interface Node] (mdx.tsx:251-258).  The destructuring at line 174 gives
    [children] and [attributes] the default [[]], so an absent field and an
    empty array are the same list here. *)
Inductive Node : Type := mkNode {
  type : string;
  tagName : option string;
  children : list Node;
  name : option string;
  value : option string;
  attributes : list Attr;
}.

(** JavaScript truthiness of a string. *)
Definition truthy_string (s : string) : bool :=
  match s with EmptyString => false | String _ _ => true end.

(** [attr.value?.type], read as a condition. *)
Definition has_truthy_type (v : JsValue) : bool :=
  match v with
  | JsObject (Some t) _ => truthy_string t
  | _ => false
  end.

(** A property key or a template hole filled with a possibly undefined
    string: [undefined] is coerced to the text ["undefined"]. *)
Definition toKey (s : option string) : string :=
  match s with Some k => k | None => "undefined" end.

Section Hydration.

(** Opaque handle of a React component collected from the usage examples. *)
Context {Component : Type}.
(** What [compile] of [@mdx-js/mdx] rejects a document with. *)
Context {CompileFailure : Type}.

(** ** React nodes

    An element is what its JSX expression hands to the [jsx] factory: the
    type, the props other than [children], and the children written
    between the tags, which are the [children] prop whatever was spread
    into the element before them. *)
Inductive ElementType : Type :=
| Host (tag : string)          (* <div>, <span>, <br /> *)
| Custom (c : Component)       (* <Component ...> *)
| AIReact                      (* <AI.React> *)
| Fragment                     (* <> ... </> *)
| Inherited (member : string). (* Object.prototype[member], as a component *)

Inductive ReactNode : Type :=
| RNull
| RUndefined
| RText (s : string)
| RArray (items : list ReactNode)
| RElement (ty : ElementType) (props : gmap string JsValue)
           (kids : list ReactNode).

Definition jsx := RElement.

(** Truthiness, as [_.compact] tests it. *)
Definition truthy (r : ReactNode) : bool :=
  match r with
  | RNull | RUndefined => false
  | RText s => truthy_string s
  | RArray _ | RElement _ _ _ => true
  end.

(** [r === null] *)
Definition isNull (r : ReactNode) : bool :=
  match r with RNull => true | _ => false end.

(** lodash [_.compact]: drop the falsy entries, keep the order. *)
Definition compact (l : list ReactNode) : list ReactNode :=
  List.filter truthy l.

(** [{[ast.value]}]: a one-element array holding the literal value. *)
Definition textChild (v : option string) : ReactNode :=
  match v with Some s => RText s | None => RUndefined end.

(** ** Exceptions and log records *)
Inductive Error : Type :=
(* whatever [await compile(mdx, ...)] rejects with *)
| CompileRejected (e : CompileFailure)
(* "Unimplemented code path: handling a React component with a
   non-trivial prop ${JSON.stringify(attr.value)}" *)
| UnimplementedNonTrivialProp (v : JsValue)
(* "Unhandled MDX AST type: ${JSON.stringify(ast)}" *)
| UnhandledAstType (ast : Node).

Inductive Level : Type := warn | trace.

Inductive LogContext : Type :=
| CtxComponent (component : option string)
| CtxHydrating (hydrated : ReactNode) (ast : Node)
| CtxFrame (frame : string).

Record LogEntry : Type := mkLog {
  level : Level;
  context : LogContext;
  message : string;
}.

(** ** The effect monad: what was logged so far, and a value or the
    exception that stopped the computation. *)
Definition Eff (A : Type) : Type := list LogEntry * (Error + A).

Definition ret {A} (a : A) : Eff A := ([], inr a).
Definition throw {A} (e : Error) : Eff A := ([], inl e).
Definition logger (l : Level) (c : LogContext) (m : string) : Eff unit :=
  ([mkLog l c m], inr tt).
Definition bind {A B} (m : Eff A) (k : A -> Eff B) : Eff B :=
  match m with
  | (w, inl e) => (w, inl e)
  | (w, inr a) => let '(w', r) := k a in (w ++ w', r)
  end.

Notation "x <- c ;; k" := (bind c (fun x => k))
  (at level 100, c at next level, right associativity).
Notation "c ;;; k" := (bind c (fun _ => k))
  (at level 100, right associativity).

(** [children.map(f)]: left to right, stopping at the first throw. *)
Fixpoint mapEff {A B} (f : A -> Eff B) (l : list A) : Eff (list B) :=
  match l with
  | [] => ret []
  | a :: l' => b <- f a ;; bs <- mapEff f l' ;; ret (b :: bs)
  end.

(** ** Plain objects

    The accumulator of the reducer starts as [{}] and the registry is a
    [Record<string, Component>]: both are plain objects, whose prototype is
    [Object.prototype].  An object is modelled by the map of its own
    properties; what it inherits is the same for all of them. *)

(** The property names of [Object.prototype]. *)
Definition objectPrototypeNames : list string :=
  [ "constructor"; "hasOwnProperty"; "isPrototypeOf"; "propertyIsEnumerable";
    "toLocaleString"; "toString"; "valueOf"; "__proto__";
    "__defineGetter__"; "__defineSetter__";
    "__lookupGetter__"; "__lookupSetter__" ].

Definition inObjectPrototype (key : string) : bool :=
  existsb (String.eqb key) objectPrototypeNames.

(** [obj[key] = v].  Every inherited property but one is a writable data
    property, which the assignment shadows with an own property.  The one
    is the accessor [__proto__]: its setter changes the prototype when [v]
    is an object and does nothing otherwise, and never adds an own
    property. *)
Definition setProperty (obj : gmap string JsValue) (key : string)
    (v : JsValue) : gmap string JsValue :=
  if String.eqb key "__proto__" then obj else <[key := v]> obj.

(** [components[key]], read as the component of an element: an own entry,
    or else the member of [Object.prototype] of that name (a function, or
    for [__proto__] the prototype object itself: all truthy), or else
    [undefined]. *)
Definition getComponent (components : gmap string Component) (key : string)
  : option ElementType :=
  match components !! key with
  | Some C => Some (Custom C)
  | None => if inObjectPrototype key then Some (Inherited key) else None
  end.

(** ** The attribute reducer (mdx.tsx:188-201) *)

(** [attr.value === null ? true : attr.value] *)
Definition orTrue (v : JsValue) : JsValue :=
  match v with JsNull => JsTrue | _ => v end.

Definition propsReducer (acc : gmap string JsValue) (attr : Attr)
  : Eff (gmap string JsValue) :=
  if has_truthy_type (attr_value attr) then
    throw (UnimplementedNonTrivialProp (attr_value attr))
  else
    ret (setProperty acc (attr_name attr) (orTrue (attr_value attr))).

(** [attributes.reduce(reducer, acc)] *)
Fixpoint reduce (attrs : list Attr) (acc : gmap string JsValue)
  : Eff (gmap string JsValue) :=
  match attrs with
  | [] => ret acc
  | attr :: rest => acc' <- propsReducer acc attr ;; reduce rest acc'
  end.

(** The string literal of one line feed, and [x === 'literal'] for a
    possibly undefined string [x]. *)
Definition newline : string := String "010"%char EmptyString.

Definition strictEq (x : option string) (lit : string) : bool :=
  match x with Some s => String.eqb s lit | None => false end.

Definition dquote : string := String "034"%char EmptyString.

(** The text of the warning at mdx.tsx:207-208. *)
Definition ignoringMessage (componentName : option string) : string :=
  String.append "Ignoring component "
 (String.append dquote
 (String.append (toKey componentName)
 (String.append dquote
 (String.append " that wasn't present in the example. "
    "You may need to adjust the prompt or include an example of this component.")))).

(** ** The walker (mdx.tsx:172-234)

    In [<Component {...props}>{kids}</Component>] the children written
    between the tags come after the spread, so they are the [children] of
    the element and a [children] entry of [props] is lost. *)
Fixpoint convertAstToComponentRec (components : gmap string Component)
    (ast : Node) {struct ast} : Eff ReactNode :=
  match ast with
  | mkNode type tagName children name value attributes =>
    let walked : Eff (list ReactNode) :=
      (fix map (l : list Node) : Eff (list ReactNode) :=
         match l with
         | [] => ret []
         | c :: l' =>
             r <- convertAstToComponentRec components c ;;
             rs <- map l' ;; ret (r :: rs)
         end) children in
    if String.eqb type "root" then
      rs <- walked ;;
      ret (jsx (Host "div") ∅ [RArray (compact rs)])
    else if String.eqb type "element" then
      rs <- walked ;;
      ret (jsx (Host "div") ∅ [RText "element "; RArray (compact rs)])
    else if String.eqb type "mdxJsxTextElement"
            || String.eqb type "mdxJsxFlowElement" then
      let componentName := name in
      props <- reduce attributes ∅ ;;
      match getComponent components (toKey componentName) with
      | None =>
          logger warn (CtxComponent componentName)
                 (ignoringMessage componentName) ;;;
          ret RNull
      | Some C =>
          rs <- walked ;;
          ret (jsx C (delete "children" props) [RArray (compact rs)])
      end
    else if String.eqb type "text" then
      if strictEq value newline then
        ret (jsx (Host "br") ∅ [])
      else
        ret (jsx (Host "span") ∅ [RArray [textChild value]])
    else if String.eqb type "mdxjsEsm" then
      ret RNull
    else
      throw (UnhandledAstType ast)
  end.

Definition convertAstToComponent (ast : Node)
    (components : gmap string Component) : Eff ReactNode :=
  convertAstToComponentRec components ast.


(** ** Collaborators imported by the module *)

(** The usage examples handed to [collectComponents] ([React.ReactNode]). *)
Context {UsageExamples : Type}.
(** [collectComponents] of [../completion.js]: name to component. *)
Variable collectComponents : UsageExamples -> gmap string Component.
(** [compile] of [@mdx-js/mdx] is a library the sources import, not a part
    of them: it is a parameter, a function from the document text to a tree
    or a rejection.  Seen through the rehype plugin of mdx.tsx:151-155,
    [compile mdx] is the tree the plugin is handed when the promise
    resolves, or what the promise rejects with. *)
Variable compile : string -> CompileFailure + Node.

(** ** [hydrateMDX] (mdx.tsx:148-170) *)

(** Lines 149-158: the local slot [ast] is declared afresh by every call,
    filled by the plugin, and read after the [await]. *)
Definition awaitCompile (mdx : string) : Eff Node :=
  match compile mdx with
  | inl e => throw (CompileRejected e)
  | inr _ast => ret _ast
  end.

Definition hydrateMDX (mdx : string) (components : gmap string Component)
  : Eff ReactNode :=
  ast <- awaitCompile mdx ;;
  hydrated <- convertAstToComponent ast components ;;
  logger warn (CtxHydrating hydrated ast) "Hydrating MDX" ;;;
  node <- convertAstToComponent ast components ;;
  ret (jsx AIReact ∅ [node]).

(** ** [MdxChatCompletion] (mdx.tsx:26-249) *)

Record Props : Type := mkProps {
  props_children : ReactNode;
  usageExamples : UsageExamples;
  hydrate : option bool;             (* hydrate?: boolean *)
}.

(** What [render(completion)] gives: an async iterable of frames which is
    also a promise of the final text. *)
Record RenderResult : Type := mkRenderResult {
  frames : list string;
  final : string;
}.

(** A finished run of the async generator, as its consumer sees it. *)
Record Outcome : Type := mkOutcome {
  yielded : list ReactNode;          (* the values of the [yield]s, in order *)
  returned : Error + ReactNode;      (* the [return] value, or the rejection *)
  logged : list LogEntry;            (* what reached [logger] *)
}.

(** The template literal of mdx.tsx:136-142. *)
Definition completionText : string :=
  String.concat newline
    [ "pre text";
      "<Card>";
      "  * **Foo**: bar";
      "  <Badge color='red'>Content</Badge>";
      "  <Toggle title='my title' subtitle='my subtitle' />";
      "</Card>";
      "post text" ].

Definition completion : ReactNode := jsx Fragment ∅ [RText completionText].

(** [!hydrate] *)
Definition falsy (h : option bool) : bool :=
  match h with Some true => false | _ => true end.

(** The [for await] loop (mdx.tsx:238-246).  [yield] awaits the promise of
    [hydrateMDX] inside the [try], so a rejection lands in the [catch]. *)
Fixpoint forAwait (components : gmap string Component) (fs : list string)
  : list LogEntry * list ReactNode :=
  match fs with
  | [] => ([], [])
  | frame :: rest =>
      let '(w, r) := hydrateMDX frame components in
      let '(w', ys) := forAwait components rest in
      match r with
      | inr node =>
          (w ++ mkLog trace (CtxFrame frame) "Yielding parsable frame" :: w',
           node :: ys)
      | inl _ =>
          (w ++ mkLog trace (CtxFrame frame) "Not yielding unparsable frame" :: w',
           ys)
      end
  end.

Definition MdxChatCompletion (props : Props)
    (render : ReactNode -> RenderResult) : Outcome :=
  let components := collectComponents (usageExamples props) in
  if falsy (hydrate props) then
    mkOutcome [] (inr completion) []
  else
    let renderedCompletion := render completion in
    let '(w, ys) := forAwait components (frames renderedCompletion) in
    let '(w', r) := hydrateMDX (final renderedCompletion) components in
    mkOutcome ys r (w ++ w').

End Hydration.

(** * Sample inputs

    Concrete trees, registries and collaborators on which the statements
    below are exercised. *)
Module Sample.

Definition text (s : string) : Node :=
  mkNode "text" None [] None (Some s) [].

Definition tag (n : string) (attrs : list Attr) (kids : list Node) : Node :=
  mkNode "mdxJsxFlowElement" None kids (Some n) None attrs.

Definition root (kids : list Node) : Node :=
  mkNode "root" None kids None None [].

Definition esm : Node := mkNode "mdxjsEsm" None [] None (Some "import A from 'a'") [].

Definition heading : Node :=
  mkNode "element" (Some "h1") [text "Title"] None None [].

Definition paragraph : Node :=
  mkNode "element" (Some "p") [text "Title"] None None [].

(** The tree of the one-line document [hello]: a paragraph. *)
Definition hello : Node :=
  mkNode "element" (Some "p") [text "hello"] None None [].

(** [{1 + 1}] in a document: a node kind the walker has no case for. *)
Definition expression : Node :=
  mkNode "mdxFlowExpression" None [] None (Some "1 + 1") [].

(** [color='red'], a bare [open], and [b={null}]. *)
Definition color_red : Attr := mkAttr "mdxJsxAttribute" "color" (JsString "red").
Definition bare_open : Attr := mkAttr "mdxJsxAttribute" "open" JsNull.
Definition b_null : Attr :=
  mkAttr "mdxJsxAttribute" "b"
         (JsObject (Some "mdxJsxAttributeValueExpression") "null").

(** A registry that knows [Badge] only; handles are numbers. *)
Definition registry : gmap string nat := {[ "Badge" := 1 ]}.

(** [children='x'] and [__proto__='y']. *)
Definition children_x : Attr :=
  mkAttr "mdxJsxAttribute" "children" (JsString "x").
Definition proto_y : Attr :=
  mkAttr "mdxJsxAttribute" "__proto__" (JsString "y").

Definition badge : Node := tag "Badge" [color_red; bare_open] [text "Hi"].

(** [<Badge children='x' __proto__='y' color='red'>Hi</Badge>] *)
Definition badge_reserved : Node :=
  tag "Badge" [children_x; proto_y; color_red] [text "Hi"].

(** [<constructor>Hi</constructor>]: a name the registry does not hold. *)
Definition constructor_tag : Node := tag "constructor" [] [text "Hi"].
Definition unknown : Node := tag "Unknown" [color_red] [text "Hi"].
Definition unknown_complex : Node := tag "Unknown" [b_null] [].

(** A stand-in for the MDX compiler on five documents; every other text is
    rejected. *)
Definition compile (mdx : string) : unit + Node :=
  if String.eqb mdx "<Badge color='red' open>Hi</Badge>" then inr (root [badge])
  else if String.eqb mdx "{1 + 1}" then inr (root [expression])
  else if String.eqb mdx "hello" then inr (root [hello])
  else if String.eqb mdx "<Unknown b={null} />" then inr (root [unknown_complex])
  else if String.eqb mdx "<Unknown color='red'>Hi</Unknown>" then inr (root [unknown])
  else inl tt.

Definition collectComponents (_ : unit) : gmap string nat := registry.

(** The walker and the generator on these collaborators. *)
Definition walk : Node -> Eff ReactNode :=
  @convertAstToComponentRec nat unit registry.

Definition hydrated (mdx : string) : Eff ReactNode :=
  hydrateMDX compile mdx registry.

Definition run (fs : list string) (doc : string) : Outcome :=
  MdxChatCompletion collectComponents compile
    (mkProps RNull tt (Some true)) (fun _ => mkRenderResult fs doc).

(** [<span>{[s]}</span>] *)
Definition span (s : string) : @ReactNode nat :=
  jsx (Host "span") ∅ [RArray [RText s]].

(** What the document [hello] hydrates to. *)
Definition hello_hydrated : @ReactNode nat :=
  jsx AIReact ∅
    [jsx (Host "div") ∅
       [RArray [jsx (Host "div") ∅
                  [RText "element "; RArray [span "hello"]]]]].

End Sample.

(** * The Fixie client

    [IsomorphicFixieClient], the second part of the same source file (lines
    279-456).  The platform is a parameter: the global [process], [fetch],
    [JSON.stringify] and the [URL] class.  A call is modelled by what it
    prints on the console, the requests it hands to [fetch], and the value
    or the error its promise settles to. *)
Module Fixie.

(** The global [process]: absent (a browser), present without [env], or
    present with its environment variables. *)
Inductive Process : Type :=
| ProcessUndefined
| ProcessWithoutEnv
| ProcessEnv (env : gmap string string).

(** Line 279: [typeof process !== 'undefined' &&
    process.env?.FIXIE_DEBUG === 'true'] *)
Definition debug (process : Process) : bool :=
  match process with
  | ProcessEnv env =>
      match env !! "FIXIE_DEBUG" with
      | Some s => String.eqb s "true"
      | None => false
      end
  | _ => false
  end.

(** The client object: [public readonly url], [public readonly apiKey?]. *)
Record Client : Type := mkClient {
  url : string;
  apiKey : option string;
}.

(** The second argument of [fetch], with its first. *)
Record Request : Type := mkRequest {
  req_url : string;
  method : string;
  headers : list (string * string);
  body : option string;
}.

Section Client.

(** JavaScript numbers, and which of them are truthy (neither 0 nor NaN). *)
Context {Num : Type}.
Variable numberTruthy : Num -> bool.
(** What [fetch] and [res.json()] reject with, what [res.json()] resolves
    to, and the objects of the [URL] class. *)
Context {FetchFailure JsonFailure Payload URL : Type}.

(** The values handed over as [bodyData]. *)
Inductive Value : Type :=
| VUndefined
| VNull
| VBool (b : bool)
| VNumber (n : Num)
| VString (s : string)
| VArray (items : list Value)
| VObject (fields : list (string * Value)).

(** [if (bodyData)] *)
Definition truthyValue (v : Value) : bool :=
  match v with
  | VUndefined | VNull => false
  | VBool b => b
  | VNumber n => numberTruthy n
  | VString s => truthy_string s
  | VArray _ | VObject _ => true
  end.

(** An optional argument as a value: absent is [undefined]. *)
Definition optString (s : option string) : Value :=
  match s with Some x => VString x | None => VUndefined end.
Definition optNumber (n : option Num) : Value :=
  match n with Some x => VNumber x | None => VUndefined end.
Definition optBool (b : option bool) : Value :=
  match b with Some x => VBool x | None => VUndefined end.
Definition optStrings (l : option (list string)) : Value :=
  match l with Some xs => VArray (map VString xs) | None => VUndefined end.

Inductive Error : Type :=
(* ReferenceError: [process] is read where there is none *)
| ProcessIsNotDefined
(* TypeError: [process.env.FIXIE_API_KEY] where [process.env] is undefined *)
| CannotReadEnv
(* line 295: "You must pass apiKey to the constructor, or set the
   FIXIE_API_KEY environment variable. ..." *)
| ApiKeyRequired
(* line 335: "Failed to access Fixie API ${url}${path}: ${statusText}" *)
| FailedToAccess (message : string)
(* a rejection of [fetch] or of [res.json()] *)
| FetchRejected (e : FetchFailure)
| JsonRejected (e : JsonFailure)
(* TypeError of [new URL(url)], line 402 *)
| InvalidURL (input : string).

Record Response : Type := mkResponse {
  ok : bool;
  statusText : string;
  json : JsonFailure + Payload;
}.

Variable process : Process.
Variable fetch : Request -> FetchFailure + Response.
Variable stringify : Value -> string.
Variable newURL : string -> option URL.
Variable setSearch : URL -> string -> URL.
Variable setHash : URL -> string -> URL.
Variable URLtoString : URL -> string.

(** [apiKey ?? process.env.FIXIE_API_KEY] *)
Definition apiKeyToUse (apiKey : option string) : Error + option string :=
  match apiKey with
  | Some k => inr (Some k)
  | None =>
      match process with
      | ProcessUndefined => inl ProcessIsNotDefined
      | ProcessWithoutEnv => inl CannotReadEnv
      | ProcessEnv env => inr (env !! "FIXIE_API_KEY")
      end
  end.

(** [!apiKeyToUse] *)
Definition missing (k : option string) : bool :=
  match k with Some s => negb (truthy_string s) | None => true end.

(** [static Create(url, apiKey?)] (lines 292-300) *)
Definition Create (url : string) (apiKey : option string) : Error + Client :=
  match apiKeyToUse apiKey with
  | inl e => inl e
  | inr k =>
      if missing k then inl ApiKeyRequired
      else inr (mkClient url apiKey)
  end.

(** [static CreateWithoutApiKey(url)] (lines 306-308) *)
Definition CreateWithoutApiKey (url : string) : Client := mkClient url None.

(** A finished call. *)
Record Run : Type := mkRun {
  console : list (string * Value);   (* the calls of [console.log] *)
  sent : list Request;               (* the calls of [fetch] *)
  result : Error + Payload;          (* what the promise settles to *)
}.

(** [`Bearer ${this.apiKey}`] *)
Definition bearer (this : Client) : string :=
  "Bearer " +:+ toKey (apiKey this).

(** [async request(path, bodyData?)] (lines 311-338) *)
Definition request (this : Client) (path : string) (bodyData : Value) : Run :=
  let printed :=
    if debug process
    then [("[Fixie request] " +:+ url this +:+ path, bodyData)]
    else [] in
  let req :=
    if truthyValue bodyData then
      mkRequest (url this +:+ path) "POST"
        [("Authorization", bearer this); ("Content-Type", "application/json")]
        (Some (stringify bodyData))
    else
      mkRequest (url this +:+ path) "GET"
        [("Authorization", bearer this)] None in
  match fetch req with
  | inl e => mkRun printed [req] (inl (FetchRejected e))
  | inr res =>
      if negb (ok res) then
        mkRun printed [req]
          (inl (FailedToAccess
                  ("Failed to access Fixie API " +:+ url this +:+ path +:+
                   ": " +:+ statusText res)))
      else
        mkRun printed [req]
          (match json res with
           | inl e => inl (JsonRejected e)
           | inr payload => inr payload
           end)
  end.

(** The endpoints (lines 341-455). *)
Definition userInfo (this : Client) : Run :=
  request this "/api/user" VUndefined.

Definition listCorpora (this : Client) : Run :=
  request this "/api/v1/corpora" VUndefined.

Definition getCorpus (this : Client) (corpusId : string) : Run :=
  request this ("/api/v1/corpora/" +:+ corpusId) VUndefined.

Definition createCorpus (this : Client) (name description : option string)
  : Run :=
  let body :=
    VObject [("corpus",
              VObject [("display_name", optString name);
                       ("description", optString description)])] in
  request this "/api/v1/corpora" body.

Definition queryCorpus (this : Client) (corpusId query : string)
    (maxChunks : option Num) : Run :=
  let body :=
    VObject [("corpus_id", VString corpusId);
             ("query", VString query);
             ("max_chunks", optNumber maxChunks)] in
  request this ("/api/v1/corpora/" +:+ corpusId +:+ ":query") body.

Definition listCorpusSources (this : Client) (corpusId : string) : Run :=
  request this ("/api/v1/corpora/" +:+ corpusId +:+ "/sources") VUndefined.

Definition getCorpusSource (this : Client) (corpusId sourceId : string)
  : Run :=
  request this
    ("/api/v1/corpora/" +:+ corpusId +:+ "/sources/" +:+ sourceId) VUndefined.

(** The callback of [startUrls.map] (lines 400-406). *)
Definition sanitize (url : string) : Error + string :=
  match newURL url with
  | None => inl (InvalidURL url)
  | Some urlObj => inr (URLtoString (setHash (setSearch urlObj "") ""))
  end.

(** [startUrls.map(...)]: left to right, stopping at the first throw. *)
Fixpoint sanitizeAll (startUrls : list string) : Error + list string :=
  match startUrls with
  | [] => inr []
  | url :: rest =>
      match sanitize url with
      | inl e => inl e
      | inr u =>
          match sanitizeAll rest with
          | inl e => inl e
          | inr us => inr (u :: us)
          end
      end
  end.

Definition addCorpusSource (this : Client) (corpusId : string)
    (startUrls : list string) (includeGlobs excludeGlobs : option (list string))
    (maxDocuments maxDepth : option Num) (description : option string)
  : Run :=
  match sanitizeAll startUrls with
  | inl e => mkRun [] [] (inl e)
  | inr sanitizedStartUrls =>
      let body :=
        VObject
          [("corpus_id", VString corpusId);
           ("source",
            VObject
              [("description", optString description);
               ("corpus_id", VString corpusId);
               ("load_spec",
                VObject
                  [("max_documents", optNumber maxDocuments);
                   ("web",
                    VObject
                      [("start_urls",
                        VArray (map VString sanitizedStartUrls));
                       ("max_depth", optNumber maxDepth);
                       ("include_glob_patterns", optStrings includeGlobs);
                       ("exclude_glob_patterns", optStrings excludeGlobs)])])])]
      in
      request this ("/api/v1/corpora/" +:+ corpusId +:+ "/sources") body
  end.

Definition refreshCorpusSource (this : Client) (corpusId sourceId : string)
    (force : option bool) : Run :=
  request this
    ("/api/v1/corpora/" +:+ corpusId +:+ "/sources/" +:+ sourceId +:+ ":refresh")
    (VObject [("force", optBool force)]).

Definition listCorpusSourceJobs (this : Client) (corpusId sourceId : string)
  : Run :=
  request this
    ("/api/v1/corpora/" +:+ corpusId +:+ "/sources/" +:+ sourceId +:+ "/jobs")
    VUndefined.

Definition getCorpusSourceJob (this : Client)
    (corpusId sourceId jobId : string) : Run :=
  request this
    ("/api/v1/corpora/" +:+ corpusId +:+ "/sources/" +:+ sourceId +:+
     "/jobs/" +:+ jobId)
    VUndefined.

Definition listCorpusDocs (this : Client) (corpusId : string) : Run :=
  request this ("/api/v1/corpora/" +:+ corpusId +:+ "/documents") VUndefined.

Definition getCorpusDoc (this : Client) (corpusId docId : string) : Run :=
  request this
    ("/api/v1/corpora/" +:+ corpusId +:+ "/documents/" +:+ docId) VUndefined.

End Client.

End Fixie.

(** Sample collaborators for the client: an environment that holds a key,
    a server that answers every request with [200 OK], numbers as [nat],
    and URLs kept as their text, of which only the ones that begin with
    [http] parse. *)
Module SampleClient.

Definition process : Fixie.Process :=
  Fixie.ProcessEnv {[ "FIXIE_API_KEY" := "secret" ]}.

Definition numberTruthy (n : nat) : bool := negb (Nat.eqb n 0).

Definition fetch (_ : Fixie.Request) : unit + @Fixie.Response unit nat :=
  inr (Fixie.mkResponse true "OK" (inr 0)).

Definition stringify (_ : @Fixie.Value nat) : string := "{...}".

Definition newURL (url : string) : option string :=
  if String.prefix "http" url then Some url else None.

Definition setPart (urlObj : string) (_ : string) : string := urlObj.

Definition URLtoString (urlObj : string) : string := urlObj.

Definition Create : string -> option string -> @Fixie.Error unit unit + Fixie.Client :=
  Fixie.Create process.

Definition request : Fixie.Client -> string -> Fixie.Value -> Fixie.Run :=
  Fixie.request numberTruthy process fetch stringify.

Definition addCorpusSource (this : Fixie.Client) (startUrls : list string)
  : Fixie.Run :=
  Fixie.addCorpusSource numberTruthy process fetch stringify
    newURL setPart setPart URLtoString
    this "c1" startUrls None None None None None.

End SampleClient.

(** * Predicates used to state further properties *)
Section Shapes.

Context {Component : Type}.

(** Does [null] occur anywhere in a React node? *)
Fixpoint containsNull (r : @ReactNode Component) : bool :=
  match r with
  | RNull => true
  | RUndefined | RText _ => false
  | RArray items => existsb containsNull items
  | RElement _ _ kids => existsb containsNull kids
  end.

(** Was a record written with [logger.trace]? *)
Definition isTrace (entry : @LogEntry Component) : bool :=
  match level entry with trace => true | warn => false end.

End Shapes.

(** * Properties of the walker and of the generator *)
Section Facts.

Context {Component CompileFailure UsageExamples : Type}.
Variable collectComponents : UsageExamples -> gmap string Component.
Variable compile : string -> CompileFailure + Node.

Local Abbreviation Eff := (@Eff Component CompileFailure).
Local Abbreviation ReactNode := (@ReactNode Component).
Local Abbreviation walk := (@convertAstToComponentRec Component CompileFailure).

(** ** The monad *)

Lemma snd_bind {A B} (m : Eff A) (k : A -> Eff B) :
  snd (bind m k) = match snd m with inl e => inl e | inr a => snd (k a) end.
Proof.
  destruct m as [w [e | a]]; simpl; [reflexivity |].
  destruct (k a); reflexivity.
Qed.

Lemma fst_bind {A B} (m : Eff A) (k : A -> Eff B) :
  fst (bind m k) =
  fst m ++ match snd m with inl _ => [] | inr a => fst (k a) end.
Proof.
  destruct m as [w [e | a]]; simpl.
  - symmetry; apply app_nil_r.
  - destruct (k a); reflexivity.
Qed.

Lemma bind_ret_l {A B} (a : A) (k : A -> Eff B) : bind (ret a) k = k a.
Proof. unfold bind, ret. destruct (k a); reflexivity. Qed.

Lemma bind_throw {A B} (e : Error) (k : A -> Eff B) :
  bind (throw e) k = throw e.
Proof. reflexivity. Qed.

Lemma bind_ret_r {A} (m : Eff A) : bind m ret = m.
Proof.
  destruct m as [w [e | a]]; simpl; [reflexivity |].
  now rewrite app_nil_r.
Qed.

Lemma bind_assoc {A B C} (m : Eff A) (k : A -> Eff B) (h : B -> Eff C) :
  bind (bind m k) h = bind m (fun a => bind (k a) h).
Proof.
  destruct m as [w [e | a]]; simpl; [reflexivity |].
  destruct (k a) as [w' [e | b]]; simpl; [reflexivity |].
  destruct (h b); simpl. now rewrite app_assoc.
Qed.

Lemma bind_ext {A B} (m : Eff A) (k k' : A -> Eff B) :
  (forall a, k a = k' a) -> bind m k = bind m k'.
Proof.
  intros Hk. destruct m as [w [e | a]]; simpl; [reflexivity |].
  now rewrite Hk.
Qed.

Lemma eff_eq {A} (m m' : Eff A) : fst m = fst m' -> snd m = snd m' -> m = m'.
Proof. destruct m, m'; simpl; congruence. Qed.

(** ** [children.map] *)

Lemma mapEff_app {A B} (f : A -> Eff B) (l1 l2 : list A) :
  mapEff f (l1 ++ l2) =
  bind (mapEff f l1) (fun r1 =>
  bind (mapEff f l2) (fun r2 => ret (r1 ++ r2))).
Proof.
  induction l1 as [| a l1 IH]; cbn [mapEff app].
  - rewrite bind_ret_l. symmetry. apply bind_ret_r.
  - rewrite IH, !bind_assoc. apply bind_ext; intros b.
    rewrite !bind_assoc. apply bind_ext; intros r1.
    rewrite bind_ret_l, bind_assoc. apply bind_ext; intros r2.
    rewrite bind_ret_l. reflexivity.
Qed.

Lemma mapEff_results {A B} (f : A -> Eff B) (l : list A) (rs : list B) :
  Forall2 (fun a b => snd (f a) = inr b) l rs ->
  snd (mapEff f l) = inr rs.
Proof.
  induction 1 as [| a b l rs Hab _ IH]; simpl; [reflexivity |].
  rewrite snd_bind, Hab, snd_bind, IH. reflexivity.
Qed.

(** ** Unfolding the walker *)

Lemma walk_unfold components ast :
  walk components ast =
  let walked := mapEff (walk components) (children ast) in
  if String.eqb (type ast) "root" then
    bind walked (fun rs => ret (jsx (Host "div") ∅ [RArray (compact rs)]))
  else if String.eqb (type ast) "element" then
    bind walked (fun rs =>
      ret (jsx (Host "div") ∅ [RText "element "; RArray (compact rs)]))
  else if String.eqb (type ast) "mdxJsxTextElement"
          || String.eqb (type ast) "mdxJsxFlowElement" then
    bind (reduce (attributes ast) ∅) (fun props =>
      match getComponent components (toKey (name ast)) with
      | None =>
          bind (logger warn (CtxComponent (name ast))
                       (ignoringMessage (name ast)))
               (fun _ => ret RNull)
      | Some C =>
          bind walked (fun rs =>
            ret (jsx C (delete "children" props) [RArray (compact rs)]))
      end)
  else if String.eqb (type ast) "text" then
    if strictEq (value ast) newline then ret (jsx (Host "br") ∅ [])
    else ret (jsx (Host "span") ∅ [RArray [textChild (value ast)]])
  else if String.eqb (type ast) "mdxjsEsm" then ret RNull
  else throw (UnhandledAstType ast).
Proof.
  destruct ast as [ty tn ch nm v attrs].
  cbn [type children name value attributes].
  cbn [convertAstToComponentRec].
  set (inner := fix map (l : list Node) : Eff (list ReactNode) := _).
  assert (Hmap : forall l, inner l = mapEff (walk components) l).
  { induction l as [| c l IH]; [reflexivity |].
    cbn [mapEff]. rewrite <- IH. reflexivity. }
  rewrite Hmap. reflexivity.
Qed.

Lemma strictEq_true x lit : strictEq x lit = true <-> x = Some lit.
Proof.
  destruct x as [s |]; simpl.
  - rewrite String.eqb_eq. split; congruence.
  - split; discriminate.
Qed.

Lemma walk_root components tn ch nm v attrs :
  walk components (mkNode "root" tn ch nm v attrs) =
  bind (mapEff (walk components) ch)
       (fun rs => ret (jsx (Host "div") ∅ [RArray (compact rs)])).
Proof. rewrite walk_unfold. reflexivity. Qed.

Lemma walk_element components tn ch nm v attrs :
  walk components (mkNode "element" tn ch nm v attrs) =
  bind (mapEff (walk components) ch)
       (fun rs =>
          ret (jsx (Host "div") ∅ [RText "element "; RArray (compact rs)])).
Proof. rewrite walk_unfold. reflexivity. Qed.

Lemma walk_tag components ty tn ch nm v attrs :
  ty = "mdxJsxTextElement" \/ ty = "mdxJsxFlowElement" ->
  walk components (mkNode ty tn ch nm v attrs) =
  bind (reduce attrs ∅) (fun props =>
    match getComponent components (toKey nm) with
    | None =>
        bind (logger warn (CtxComponent nm) (ignoringMessage nm))
             (fun _ => ret RNull)
    | Some C =>
        bind (mapEff (walk components) ch) (fun rs =>
          ret (jsx C (delete "children" props) [RArray (compact rs)]))
    end).
Proof. intros [-> | ->]; rewrite walk_unfold; reflexivity. Qed.

Lemma walk_text components tn ch nm v attrs :
  walk components (mkNode "text" tn ch nm v attrs) =
  if strictEq v newline then ret (jsx (Host "br") ∅ [])
  else ret (jsx (Host "span") ∅ [RArray [textChild v]]).
Proof. rewrite walk_unfold. reflexivity. Qed.

Lemma walk_esm components tn ch nm v attrs :
  walk components (mkNode "mdxjsEsm" tn ch nm v attrs) = ret RNull.
Proof. rewrite walk_unfold. reflexivity. Qed.

(** The node kinds the [switch] has a case for. *)
Lemma walk_default components ast :
  type ast ∉ ["root"; "element"; "mdxJsxTextElement"; "mdxJsxFlowElement";
              "text"; "mdxjsEsm"] ->
  walk components ast = throw (UnhandledAstType ast).
Proof.
  intros Hty. rewrite walk_unfold. cbn zeta.
  repeat match goal with
  | |- context [String.eqb (type ast) ?lit] =>
      destruct (String.eqb_spec (type ast) lit) as [E | _];
      [ exfalso; apply Hty; rewrite E; set_solver | ]
  end.
  reflexivity.
Qed.

Lemma bind_ret_inv {A B} (m : Eff A) (f : A -> B) (b : B) :
  snd (bind m (fun a => ret (f a))) = inr b ->
  exists a, snd m = inr a /\ b = f a.
Proof.
  rewrite snd_bind. destruct (snd m) as [e | a]; [discriminate |].
  simpl. intros [= <-]. exists a. split; reflexivity.
Qed.

(** What the walker hands back is [null] or an element, so [_.compact]
    removes the [null]s and nothing else. *)
Lemma walk_result_shape components ast r :
  snd (walk components ast) = inr r -> truthy r = negb (isNull r).
Proof.
  rewrite walk_unfold. cbn zeta.
  destruct (String.eqb (type ast) "root").
  { intros (rs & _ & ->)%bind_ret_inv. reflexivity. }
  destruct (String.eqb (type ast) "element").
  { intros (rs & _ & ->)%bind_ret_inv. reflexivity. }
  destruct (_ || _).
  { rewrite snd_bind. destruct (snd (reduce _ _)) as [e | props];
      [discriminate |].
    destruct (getComponent _ _).
    - intros (rs & _ & ->)%bind_ret_inv. reflexivity.
    - simpl. intros [= <-]. reflexivity. }
  destruct (String.eqb (type ast) "text").
  { destruct (strictEq _ _); simpl; intros [= <-]; reflexivity. }
  destruct (String.eqb (type ast) "mdxjsEsm").
  { simpl. intros [= <-]. reflexivity. }
  discriminate.
Qed.

Lemma compact_walked components (ch : list Node) (rs : list ReactNode) :
  Forall2 (fun c r => snd (walk components c) = inr r) ch rs ->
  compact rs = List.filter (fun r => negb (isNull r)) rs.
Proof.
  unfold compact.
  induction 1 as [| c r ch rs Hcr _ IH]; simpl; [reflexivity |].
  rewrite IH, (walk_result_shape _ _ _ Hcr). reflexivity.
Qed.

(** ** The attribute reducer *)

Lemma reduce_literals (attrs : list Attr) (acc : gmap string JsValue) :
  (forall a, a ∈ attrs -> has_truthy_type (attr_value a) = false) ->
  reduce attrs acc =
  (ret (foldl (fun m a => setProperty m (attr_name a) (orTrue (attr_value a)))
              acc attrs) : Eff _).
Proof.
  revert acc. induction attrs as [| a rest IH]; intros acc Hlit;
    cbn [reduce foldl]; [reflexivity |].
  unfold propsReducer. rewrite (Hlit a) by set_solver.
  rewrite bind_ret_l. apply IH. intros b Hb. apply Hlit. set_solver.
Qed.

Lemma reduce_complex (attrs : list Attr) (acc : gmap string JsValue) a :
  a ∈ attrs -> has_truthy_type (attr_value a) = true ->
  exists a', a' ∈ attrs /\ has_truthy_type (attr_value a') = true /\
    reduce attrs acc = (throw (UnimplementedNonTrivialProp (attr_value a')) : Eff _).
Proof.
  revert acc. induction attrs as [| b rest IH]; intros acc Hin Ha.
  - inversion Hin.
  - cbn [reduce]. unfold propsReducer.
    destruct (has_truthy_type (attr_value b)) eqn:Hb.
    + exists b. split; [constructor |]. split; [exact Hb |]. reflexivity.
    + assert (Hrest : a ∈ rest).
      { destruct (proj1 (elem_of_cons _ _ _) Hin) as [E | Hr];
          [congruence | exact Hr]. }
      rewrite bind_ret_l.
      destruct (IH (setProperty acc (attr_name b) (orTrue (attr_value b)))
                   Hrest Ha)
        as (a' & Hin' & Ha' & Hred).
      exists a'. split; [now constructor |]. split; [exact Ha' | exact Hred].
Qed.

(** The registry object, read with a key. *)
Lemma getComponent_own (components : gmap string Component) key C :
  components !! key = Some C -> getComponent components key = Some (Custom C).
Proof. unfold getComponent. now intros ->. Qed.

Lemma getComponent_None (components : gmap string Component) key :
  getComponent components key = None <->
  components !! key = None /\ inObjectPrototype key = false.
Proof.
  unfold getComponent. destruct (components !! key) as [C |].
  - split; [discriminate | intros [H _]; discriminate H].
  - destruct (inObjectPrototype key); split;
      try discriminate; try (intros [_ H]; discriminate H); now split.
Qed.

(** Last write wins: a key other than [__proto__] holds what the last
    attribute of that name stored; [__proto__] is never written. *)
Lemma foldl_insert_lookup (attrs : list Attr) (acc : gmap string JsValue) k :
  foldl (fun m a => setProperty m (attr_name a) (orTrue (attr_value a)))
        acc attrs !! k =
  if String.eqb k "__proto__" then acc !! k
  else match last (filter (fun a => attr_name a = k) attrs) with
       | Some a => Some (orTrue (attr_value a))
       | None => acc !! k
       end.
Proof.
  revert acc. induction attrs as [| a rest IH]; intros acc; cbn [foldl].
  - destruct (String.eqb k "__proto__"); reflexivity.
  - rewrite IH. unfold setProperty.
    destruct (String.eqb_spec k "__proto__") as [Hk | Hk].
    + destruct (String.eqb_spec (attr_name a) "__proto__") as [Ha | Ha];
        [reflexivity |].
      apply lookup_insert_ne. congruence.
    + rewrite filter_cons. case_decide as Hak.
      * rewrite last_cons. destruct (last _); [reflexivity |].
        destruct (String.eqb_spec (attr_name a) "__proto__") as [Ha | Ha];
          [congruence |].
        subst k. apply lookup_insert_eq.
      * destruct (last _); [reflexivity |].
        destruct (String.eqb_spec (attr_name a) "__proto__") as [Ha | Ha];
          [reflexivity |].
        apply lookup_insert_ne, Hak.
Qed.

(** ** [hydrateMDX] and the loop *)

Lemma hydrateMDX_result mdx components :
  snd (hydrateMDX compile mdx components) =
  match compile mdx return Error + ReactNode with
  | inl e => inl (CompileRejected e)
  | inr ast =>
      match snd (convertAstToComponent ast components) with
      | inl e => inl e
      | inr node => inr (jsx AIReact ∅ [node])
      end
  end.
Proof.
  unfold hydrateMDX, awaitCompile.
  destruct (compile mdx) as [e | ast].
  - rewrite bind_throw. reflexivity.
  - rewrite bind_ret_l, snd_bind.
    destruct (snd (convertAstToComponent ast components)) as [e | node] eqn:Hw;
      [reflexivity |].
    rewrite snd_bind. cbn [logger snd]. rewrite snd_bind, Hw. reflexivity.
Qed.

(** [hydrateMDX] walks the tree twice (lines 160 and 165), so whatever a
    walk logs is logged twice, around the "Hydrating MDX" record. *)
Lemma hydrateMDX_log mdx components ast (w : list LogEntry)
    (node : ReactNode) :
  compile mdx = inr ast ->
  (convertAstToComponent ast components : Eff ReactNode) = (w, inr node) ->
  hydrateMDX compile mdx components =
  (w ++ mkLog warn (CtxHydrating node ast) "Hydrating MDX" :: w,
   inr (jsx AIReact ∅ [node])).
Proof.
  intros Hc Hw. unfold hydrateMDX, awaitCompile.
  rewrite Hc, bind_ret_l, Hw. cbn. now rewrite app_nil_r.
Qed.

(** What a frame contributes to the stream: its hydration, or nothing. *)
Local Abbreviation emission components :=
  (fun frame : string =>
     match snd (hydrateMDX compile frame components)
     return option ReactNode with
     | inr node => Some node
     | inl _ => None
     end).

Lemma forAwait_yields components fs :
  snd (forAwait compile components fs) = omap (emission components) fs.
Proof.
  induction fs as [| f fs IH]; cbn [forAwait omap list_omap]; [reflexivity |].
  destruct (hydrateMDX compile f components) as [w [e | node]];
    destruct (forAwait compile components fs) as [w' ys];
    simpl in *; rewrite IH; reflexivity.
Qed.

Lemma MdxChatCompletion_hydrating ch ue render :
  let components := collectComponents ue in
  let out := MdxChatCompletion collectComponents compile
               (mkProps ch ue (Some true)) render in
  yielded out = snd (forAwait compile components (frames (render completion)))
  /\ returned out = snd (hydrateMDX compile (final (render completion)) components).
Proof.
  unfold MdxChatCompletion. cbn.
  destruct (forAwait _ _ _) as [w ys], (hydrateMDX _ _ _) as [w' r].
  split; reflexivity.
Qed.

Lemma snd_mapEff_app {A B} (f : A -> Eff B) (l1 l2 : list A) :
  snd (mapEff f (l1 ++ l2)) =
  match snd (mapEff f l1) with
  | inl e => inl e
  | inr r1 =>
      match snd (mapEff f l2) with
      | inl e => inl e
      | inr r2 => inr (r1 ++ r2)
      end
  end.
Proof.
  rewrite mapEff_app, snd_bind. destruct (snd (mapEff f l1)); [reflexivity |].
  rewrite snd_bind. destruct (snd (mapEff f l2)); reflexivity.
Qed.

Lemma omap_skip {A B} (f : A -> option B) (l1 l2 : list A) (a : A) :
  f a = None -> omap f (l1 ++ a :: l2) = omap f (l1 ++ l2).
Proof.
  intros Ha. rewrite !omap_app. cbn [omap list_omap]. rewrite Ha. reflexivity.
Qed.

Lemma run_yields ch ue fs doc :
  yielded (MdxChatCompletion collectComponents compile
             (mkProps ch ue (Some true)) (fun _ => mkRenderResult fs doc)) =
  omap (emission (collectComponents ue)) fs.
Proof.
  destruct (MdxChatCompletion_hydrating ch ue
              (fun _ => mkRenderResult fs doc)) as [-> _].
  apply forAwait_yields.
Qed.

Lemma run_returns ch ue fs doc :
  returned (MdxChatCompletion collectComponents compile
              (mkProps ch ue (Some true)) (fun _ => mkRenderResult fs doc)) =
  snd (hydrateMDX compile doc (collectComponents ue)).
Proof.
  destruct (MdxChatCompletion_hydrating ch ue
              (fun _ => mkRenderResult fs doc)) as [_ ->].
  reflexivity.
Qed.

(** * The claims *)

(** C1: with [hydrate] set, whatever the frames were, the generator returns
    exactly what parsing and walking the final document gives, wrapped in
    [<AI.React>]; if the compiler rejects the final document, or the walk of
    its tree throws, that error is the outcome of the generator. *)
Theorem final_document_decides_the_return ch ue render :
  returned (MdxChatCompletion collectComponents compile
              (mkProps ch ue (Some true)) render) =
  match compile (final (render completion)) return Error + ReactNode with
  | inl e => inl (CompileRejected e)
  | inr ast =>
      match snd (convertAstToComponent ast (collectComponents ue)) with
      | inl e => inl e
      | inr node => inr (jsx AIReact ∅ [node])
      end
  end.
Proof.
  destruct (MdxChatCompletion_hydrating ch ue render) as [_ ->].
  apply hydrateMDX_result.
Qed.

(** C2: a frame whose hydration fails, for whatever reason, contributes no
    value: the stream of yields (and the return) is the one of the same run
    without that frame, so the last value seen after it is the last value
    seen before it. *)
Theorem failed_frame_yields_nothing ch ue (before after : list string)
    (frame doc : string) (e : Error) :
  let run fs := MdxChatCompletion collectComponents compile
                  (mkProps ch ue (Some true))
                  (fun _ => mkRenderResult fs doc) in
  snd (hydrateMDX compile frame (collectComponents ue)) = inl e ->
  yielded (run (before ++ frame :: after)) = yielded (run (before ++ after))
  /\ returned (run (before ++ frame :: after)) = returned (run (before ++ after))
  /\ last (yielded (run (before ++ [frame]))) = last (yielded (run before)).
Proof.
  intros run Hfail. unfold run. rewrite !run_yields, !run_returns.
  split; [| split].
  - apply omap_skip. now rewrite Hfail.
  - reflexivity.
  - rewrite (omap_skip _ before [] frame) by (now rewrite Hfail).
    now rewrite app_nil_r.
Qed.

(** Auxiliary to C3: the walk of an [element] node does not read its
    [tagName]; by [walk_element] it reaches the registry through its
    children only. *)
Lemma element_tag_name_is_not_read components tn tn' ch nm v attrs :
  walk components (mkNode "element" tn ch nm v attrs) =
  walk components (mkNode "element" tn' ch nm v attrs).
Proof. rewrite !walk_element. reflexivity. Qed.

(** C4, as amended: for a component tag whose name the registry holds,
    (1) if some attribute carries an expression object, the walk throws the
    "non-trivial prop" error, naming such an attribute, before anything is
    logged; (2) otherwise, once the children are walked, the result is the
    component applied to the compacted children, with props in which every
    attribute name other than [children] and [__proto__] holds the literal
    value of the last attribute of that name, [true] standing for a bare
    attribute, and no other key; the props hold no [children] entry, the
    walked children being the children of the element. *)
Theorem known_component_is_invoked_with_literal_props
    components ty tn ch nm v attrs (C : Component) :
  ty = "mdxJsxTextElement" \/ ty = "mdxJsxFlowElement" ->
  components !! toKey nm = Some C ->
  (forall a, a ∈ attrs -> has_truthy_type (attr_value a) = true ->
     exists a', a' ∈ attrs /\ has_truthy_type (attr_value a') = true /\
       walk components (mkNode ty tn ch nm v attrs) =
       throw (UnimplementedNonTrivialProp (attr_value a')))
  /\
  ((forall a, a ∈ attrs -> has_truthy_type (attr_value a) = false) ->
   forall rs,
     Forall2 (fun c r => snd (walk components c) = inr r) ch rs ->
     exists props,
       snd (walk components (mkNode ty tn ch nm v attrs)) =
         inr (jsx (Custom C) props [RArray (compact rs)])
       /\ props !! "children" = None
       /\ forall k,
            k <> "children" -> k <> "__proto__" ->
            props !! k =
            (fun a => orTrue (attr_value a)) <$>
              last (filter (fun a => attr_name a = k) attrs)).
Proof.
  intros Hty HC.
  rewrite (walk_tag _ _ _ _ _ _ _ Hty), (getComponent_own _ _ _ HC). split.
  - intros a Hin Ha.
    destruct (reduce_complex attrs ∅ a Hin Ha) as (a' & Hin' & Ha' & Hred).
    exists a'. split; [exact Hin' |]. split; [exact Ha' |].
    rewrite Hred. apply bind_throw.
  - intros Hlit rs Hrs. rewrite (reduce_literals _ _ Hlit), bind_ret_l.
    eexists. split; [| split].
    + rewrite snd_bind, (mapEff_results _ _ _ Hrs). reflexivity.
    + apply lookup_delete_eq.
    + intros k Hchildren Hproto.
      rewrite lookup_delete_ne by congruence.
      rewrite foldl_insert_lookup.
      destruct (String.eqb_spec k "__proto__") as [E | _]; [contradiction |].
      destruct (last _); [reflexivity | apply lookup_empty].
Qed.

(** What a dropped child changes in the walk of its siblings: it adds its
    one record to the log, after the records of the children before it,
    when these were all walked; the compacted results are the same. *)
Lemma mapEff_dropped_child {B} (f : Node -> Eff ReactNode)
    (g : list ReactNode -> B) (before after : list Node) (c : Node)
    (entry : @LogEntry Component) :
  f c = ([entry], inr RNull) ->
  let withChild :=
    bind (mapEff f (before ++ c :: after)) (fun rs => ret (g (compact rs))) in
  let without :=
    bind (mapEff f (before ++ after)) (fun rs => ret (g (compact rs))) in
  snd withChild = snd without
  /\ match snd (mapEff f before) with
     | inl _ => fst withChild = fst without
     | inr _ =>
         fst withChild = fst (mapEff f before) ++ entry :: fst (mapEff f after)
         /\ fst without = fst (mapEff f before) ++ fst (mapEff f after)
     end.
Proof.
  intros Hc withChild without. unfold withChild, without.
  rewrite !mapEff_app. cbn [mapEff]. rewrite Hc.
  destruct (mapEff f before) as [w1 [e | r1]]; [split; reflexivity |].
  destruct (mapEff f after) as [w2 [e | r2]]; cbn.
  - split; [reflexivity |]. split; reflexivity.
  - unfold compact. rewrite !List.filter_app. cbn.
    rewrite !app_nil_r. split; [reflexivity |]. split; reflexivity.
Qed.

(** C5, as amended: a component tag whose name cannot be read from the
    registry object (it is no entry of the registry and no member of
    [Object.prototype]) and whose attributes are all literal walks to
    [null], logs exactly one warning, which names the component, and throws
    nothing; its children are not walked.  Under every parent that walks
    its children (a root, an element, a component tag that is found and
    has literal attributes) the result is the one of the same parent
    without that node, and the log is the one of the siblings with that
    one warning at the node's place; when a sibling before the node throws,
    the node is not reached and the log is unchanged. *)
Theorem unknown_component_is_pruned components ty tn ch nm v attrs :
  ty = "mdxJsxTextElement" \/ ty = "mdxJsxFlowElement" ->
  getComponent components (toKey nm) = None ->
  (forall a, a ∈ attrs -> has_truthy_type (attr_value a) = false) ->
  let node := mkNode ty tn ch nm v attrs in
  let warning : @LogEntry Component :=
    mkLog warn (CtxComponent nm) (ignoringMessage nm) in
  walk components node = ([warning], inr RNull)
  /\ forall pty ptn pnm pv pattrs (before after : list Node),
       pty = "root" \/ pty = "element" \/
       ((pty = "mdxJsxTextElement" \/ pty = "mdxJsxFlowElement")
        /\ (forall a, a ∈ pattrs -> has_truthy_type (attr_value a) = false)
        /\ getComponent components (toKey pnm) <> None) ->
       let withNode :=
         walk components
           (mkNode pty ptn (before ++ node :: after) pnm pv pattrs) in
       let without :=
         walk components (mkNode pty ptn (before ++ after) pnm pv pattrs) in
       snd withNode = snd without
       /\ match snd (mapEff (walk components) before) with
          | inl _ => fst withNode = fst without
          | inr _ =>
              fst withNode =
                fst (mapEff (walk components) before) ++
                warning :: fst (mapEff (walk components) after)
              /\ fst without =
                fst (mapEff (walk components) before) ++
                fst (mapEff (walk components) after)
          end.
Proof.
  intros Hty Hnone Hlit node warning.
  assert (Hnode : walk components node = ([warning], inr RNull)).
  { unfold node. rewrite (walk_tag _ _ _ _ _ _ _ Hty), Hnone.
    rewrite (reduce_literals _ _ Hlit), bind_ret_l. reflexivity. }
  split; [exact Hnode |].
  intros pty ptn pnm pv pattrs before after Hparent withNode without.
  unfold withNode, without.
  destruct Hparent as [-> | [-> | (Hpty & Hplit & Hfound)]].
  - rewrite !walk_root.
    exact (mapEff_dropped_child (walk components)
             (fun kids => jsx (Host "div") ∅ [RArray kids])
             before after node warning Hnode).
  - rewrite !walk_element.
    exact (mapEff_dropped_child (walk components)
             (fun kids => jsx (Host "div") ∅ [RText "element "; RArray kids])
             before after node warning Hnode).
  - rewrite !(walk_tag _ _ _ _ _ _ _ Hpty).
    rewrite (reduce_literals _ _ Hplit), !bind_ret_l.
    destruct (getComponent components (toKey pnm)) as [P |];
      [| contradiction].
    exact (mapEff_dropped_child (walk components)
             (fun kids => jsx P (delete "children" _) [RArray kids])
             before after node warning Hnode).
Qed.

(** C6: a text node walks to [<br />] exactly when its value is the
    one-character string of a line feed; any other value walks to a
    [<span>] whose only child is the one-element array holding the value
    whole.  Nothing is logged either way. *)
Theorem text_is_a_break_iff_value_is_newline components tn ch nm v attrs :
  (walk components (mkNode "text" tn ch nm v attrs) =
     ret (jsx (Host "br") ∅ []) <-> v = Some newline)
  /\ (v <> Some newline ->
      walk components (mkNode "text" tn ch nm v attrs) =
        ret (jsx (Host "span") ∅ [RArray [textChild v]])).
Proof.
  rewrite walk_text. destruct (strictEq v newline) eqn:Hv.
  - apply strictEq_true in Hv. split; [easy | congruence].
  - assert (v <> Some newline).
    { intros Heq%strictEq_true. congruence. }
    split; [| reflexivity]. split; [discriminate | contradiction].
Qed.

(** C7: a root whose children walk to [rs] walks to a [<div>] over [rs]
    without its [null] entries, in the same order; and an [mdxjsEsm] node
    always walks to [null], logging nothing. *)
Theorem root_keeps_the_children_that_are_not_null :
  (forall components tn ch nm v attrs (rs : list ReactNode),
     Forall2 (fun c r => snd (walk components c) = inr r) ch rs ->
     snd (walk components (mkNode "root" tn ch nm v attrs)) =
       inr (jsx (Host "div") ∅
              [RArray (List.filter (fun r => negb (isNull r)) rs)]))
  /\ (forall components tn ch nm v attrs,
        walk components (mkNode "mdxjsEsm" tn ch nm v attrs) = ret RNull).
Proof.
  split.
  - intros components tn ch nm v attrs rs Hrs.
    rewrite walk_root, snd_bind, (mapEff_results _ _ _ Hrs).
    cbn [ret snd]. rewrite (compact_walked _ _ _ Hrs). reflexivity.
  - intros. apply walk_esm.
Qed.

(** C9, as amended: a node whose [type] is none of the six the [switch]
    names makes the walk throw "Unhandled MDX AST type"; when the walk of
    the final document ends in that error the generator ends in it; when
    the walk of a frame of the stream does, the error is caught with every
    other failure of that frame, and the run goes on as if the frame had
    not come. *)
Theorem unhandled_type_throws_and_surfaces_at_the_end_only ast :
  type ast ∉ ["root"; "element"; "mdxJsxTextElement"; "mdxJsxFlowElement";
              "text"; "mdxjsEsm"] ->
  (forall components, walk components ast = throw (UnhandledAstType ast))
  /\ (forall ch ue render tree,
        compile (final (render completion)) = inr tree ->
        snd (walk (collectComponents ue) tree) = inl (UnhandledAstType ast) ->
        returned (MdxChatCompletion collectComponents compile
                    (mkProps ch ue (Some true)) render) =
        inl (UnhandledAstType ast))
  /\ (forall ch ue (before after : list string) (frame doc : string) tree,
        compile frame = inr tree ->
        snd (walk (collectComponents ue) tree) = inl (UnhandledAstType ast) ->
        let run fs := MdxChatCompletion collectComponents compile
                        (mkProps ch ue (Some true))
                        (fun _ => mkRenderResult fs doc) in
        yielded (run (before ++ frame :: after)) =
          yielded (run (before ++ after))
        /\ returned (run (before ++ frame :: after)) =
          returned (run (before ++ after))).
Proof.
  intros Hty. split; [| split].
  - intros. now apply walk_default.
  - intros ch ue render tree Hdoc Hwalk.
    destruct (MdxChatCompletion_hydrating ch ue render) as [_ ->].
    rewrite hydrateMDX_result, Hdoc.
    unfold convertAstToComponent. rewrite Hwalk. reflexivity.
  - intros ch ue before after frame doc tree Hframe Hwalk run. unfold run.
    rewrite !run_yields, !run_returns. split; [| reflexivity].
    apply omap_skip. rewrite hydrateMDX_result, Hframe.
    unfold convertAstToComponent. rewrite Hwalk. reflexivity.
Qed.

(** C10: when [hydrate] is absent or [false] the generator returns the
    completion element as it is, yields nothing and logs nothing, whatever
    the compiler, the registry builder and [render] would have done. *)
Theorem without_hydrate_the_completion_is_returned ch ue render :
  MdxChatCompletion collectComponents compile (mkProps ch ue None) render =
    mkOutcome [] (inr completion) []
  /\ MdxChatCompletion collectComponents compile
       (mkProps ch ue (Some false)) render =
    mkOutcome [] (inr completion) [].
Proof. split; reflexivity. Qed.

End Facts.

(** * The statements on the sample inputs *)

(** C1 on a run in which no frame hydrates: nothing is yielded, and the
    return is the hydration of the final document. *)
Lemma final_document_decides_the_return_sample :
  yielded (Sample.run ["<Ba"; "<Badge col"]
                      "<Badge color='red' open>Hi</Badge>") = []
  /\ returned (Sample.run ["<Ba"; "<Badge col"]
                          "<Badge color='red' open>Hi</Badge>") =
     inr (jsx AIReact ∅
            [jsx (Host "div") ∅
               [RArray
                  [jsx (Custom 1)
                       (<["color" := JsString "red"]> (<["open" := JsTrue]> ∅))
                       [RArray [Sample.span "Hi"]]]]]).
Proof.
  split; [vm_compute; reflexivity |].
  unfold Sample.run.
  rewrite (final_document_decides_the_return
             Sample.collectComponents Sample.compile).
  vm_compute. reflexivity.
Defined.

(** C2 on a rejected frame between two that hydrate. *)
Lemma failed_frame_yields_nothing_sample :
  snd (Sample.hydrated "<Ba") = inl (CompileRejected tt)
  /\ yielded (Sample.run ["<Ba"; "hello"; "{1 + 1}"; "<Unknown b={null} />"]
                         "hello") = [Sample.hello_hydrated]
  /\ yielded (Sample.run (["hello"] ++ "<Ba" :: ["hello"]) "hello") =
     yielded (Sample.run (["hello"] ++ ["hello"]) "hello")
  /\ returned (Sample.run (["hello"] ++ "<Ba" :: ["hello"]) "hello") =
     returned (Sample.run (["hello"] ++ ["hello"]) "hello")
  /\ last (yielded (Sample.run (["hello"] ++ ["<Ba"]) "hello")) =
     last (yielded (Sample.run ["hello"] "hello")).
Proof.
  split; [reflexivity |]. split; [vm_compute; reflexivity |].
  apply (failed_frame_yields_nothing
           Sample.collectComponents Sample.compile RNull tt
           ["hello"] ["hello"] "<Ba" "hello" (CompileRejected tt)).
  reflexivity.
Defined.

(** C3 at the failing input: an [<h1>] element walks to a [<div>] that
    starts with the literal text "element "; the tag name [h1] is nowhere
    in the result, and a [<p>] with the same children walks to the very
    same node. *)
Lemma heading_walks_to_an_anonymous_div :
  Sample.walk Sample.heading =
    ret (jsx (Host "div") ∅ [RText "element "; RArray [Sample.span "Title"]])
  /\ Sample.walk Sample.heading = Sample.walk Sample.paragraph.
Proof. split; vm_compute; reflexivity. Qed.

(** C4 on [<Badge color='red' open>Hi</Badge>] with [Badge] registered. *)
Lemma known_component_is_invoked_with_literal_props_sample :
  exists props,
    snd (Sample.walk Sample.badge) =
      inr (jsx (Custom 1) props [RArray [Sample.span "Hi"]])
    /\ props !! "color" = Some (JsString "red")
    /\ props !! "open" = Some JsTrue
    /\ props !! "title" = None.
Proof.
  destruct (known_component_is_invoked_with_literal_props
              (CompileFailure := unit) Sample.registry "mdxJsxFlowElement" None [Sample.text "Hi"]
              (Some "Badge") None [Sample.color_red; Sample.bare_open] 1
              (or_intror eq_refl) eq_refl) as [_ Hlit].
  destruct (Hlit
              ltac:(intros a Ha; apply list_elem_of_In in Ha; simpl in Ha;
                    destruct Ha as [<- | [<- | []]]; reflexivity)
              [Sample.span "Hi"]
              ltac:(repeat constructor)) as (props & Hwalk & _ & Hprops).
  exists props. split; [exact Hwalk |].
  rewrite !Hprops by discriminate. repeat split; reflexivity.
Defined.

(** C4 as stated fails: in [<Badge children='x' __proto__='y'
    color='red'>Hi</Badge>], with [Badge] registered, the attributes
    [children] and [__proto__] have literal values and yet the props of the
    invocation hold no entry for either: the walked children took the
    place of the first, and the second was never stored. *)
Lemma attributes_named_children_or_proto_leave_no_entry :
  Sample.registry !! "Badge" = Some 1
  /\ Sample.walk Sample.badge_reserved =
     ret (jsx (Custom 1) (<["color" := JsString "red"]> ∅)
            [RArray [Sample.span "Hi"]])
  /\ (<["color" := JsString "red"]> ∅ : gmap string JsValue) !! "children" =
     None
  /\ (<["color" := JsString "red"]> ∅ : gmap string JsValue) !! "__proto__" =
     None.
Proof. repeat split; vm_compute; reflexivity. Qed.

(** C5 as stated fails, twice.  [<Unknown b={null} />] names a component
    the registry does not hold, and yet the walk of the document throws,
    so the frame is lost and no warning is logged.  [<constructor>Hi
    </constructor>] names none either, and yet it is not dropped: the
    lookup finds [Object.prototype.constructor], the children are walked
    and no warning is logged. *)
Lemma unknown_component_is_not_always_pruned :
  Sample.registry !! "Unknown" = None
  /\ Sample.walk (Sample.root [Sample.unknown_complex]) =
     throw (UnimplementedNonTrivialProp
              (JsObject (Some "mdxJsxAttributeValueExpression") "null"))
  /\ Sample.hydrated "<Unknown b={null} />" =
     throw (UnimplementedNonTrivialProp
              (JsObject (Some "mdxJsxAttributeValueExpression") "null"))
  /\ Sample.registry !! "constructor" = None
  /\ Sample.walk (Sample.root [Sample.constructor_tag]) =
     ret (jsx (Host "div") ∅
            [RArray [jsx (Inherited "constructor") ∅
                       [RArray [Sample.span "Hi"]]]]).
Proof. repeat split; vm_compute; reflexivity. Qed.

(** One hydration of [<Unknown color='red'>Hi</Unknown>] logs the warning
    about [Unknown] twice, once for each of the two walks. *)
Lemma unknown_component_is_warned_once_per_walk :
  fst (Sample.hydrated "<Unknown color='red'>Hi</Unknown>") =
  [ mkLog warn (CtxComponent (Some "Unknown"))
          (ignoringMessage (Some "Unknown"));
    mkLog warn (CtxHydrating (jsx (Host "div") ∅ [RArray []])
                             (Sample.root [Sample.unknown]))
          "Hydrating MDX";
    mkLog warn (CtxComponent (Some "Unknown"))
          (ignoringMessage (Some "Unknown")) ].
Proof. vm_compute. reflexivity. Qed.

(** C5, as amended, on [<Unknown color='red'>Hi</Unknown>] between two
    siblings, under a root and under a paragraph. *)
Lemma unknown_component_is_pruned_sample :
  Sample.walk Sample.unknown =
    ([mkLog warn (CtxComponent (Some "Unknown"))
            (ignoringMessage (Some "Unknown"))], inr RNull)
  /\ snd (Sample.walk
            (Sample.root ([Sample.text "hello"] ++
                          Sample.unknown :: [Sample.badge]))) =
     snd (Sample.walk
            (Sample.root ([Sample.text "hello"] ++ [Sample.badge])))
  /\ Sample.walk
       (mkNode "element" (Some "p")
          ([Sample.text "hello"] ++ Sample.unknown :: [Sample.badge])
          None None []) =
     ([mkLog warn (CtxComponent (Some "Unknown"))
             (ignoringMessage (Some "Unknown"))],
      snd (Sample.walk
             (mkNode "element" (Some "p")
                ([Sample.text "hello"] ++ [Sample.badge]) None None []))).
Proof.
  destruct (unknown_component_is_pruned (CompileFailure := unit)
              Sample.registry "mdxJsxFlowElement" None [Sample.text "Hi"]
              (Some "Unknown") None [Sample.color_red]
              (or_intror eq_refl) eq_refl
              ltac:(intros a Ha; apply list_elem_of_In in Ha; simpl in Ha;
                    destruct Ha as [<- | []]; reflexivity))
    as [Hnode Hparent].
  split; [exact Hnode |]. split.
  - exact (proj1 (Hparent "root" None None None []
                    [Sample.text "hello"] [Sample.badge]
                    (or_introl eq_refl))).
  - pose proof (Hparent "element" (Some "p") None None []
                  [Sample.text "hello"] [Sample.badge]
                  (or_intror (or_introl eq_refl))) as [Hres [Hlog _]].
    apply eff_eq; [exact Hlog | exact Hres].
Defined.

(** C6 on the values ["\n"], ["hello"] and a text that merely contains a
    line feed. *)
Lemma text_is_a_break_iff_value_is_newline_sample :
  Sample.walk (Sample.text newline) = ret (jsx (Host "br") ∅ [])
  /\ Sample.walk (Sample.text "hello") = ret (Sample.span "hello")
  /\ Sample.walk (Sample.text (String.append "a" newline)) =
     ret (Sample.span (String.append "a" newline)).
Proof.
  split; [| split].
  - apply (text_is_a_break_iff_value_is_newline (CompileFailure := unit)
             Sample.registry None [] None (Some newline) []).
    reflexivity.
  - apply (text_is_a_break_iff_value_is_newline (CompileFailure := unit)
             Sample.registry None [] None (Some "hello") []).
    discriminate.
  - apply (text_is_a_break_iff_value_is_newline (CompileFailure := unit)
             Sample.registry None [] None
             (Some (String.append "a" newline)) []).
    discriminate.
Defined.

(** C7 on a root over a text, an import, an unknown tag and a known one:
    the import and the unknown tag leave no slot. *)
Lemma root_keeps_the_children_that_are_not_null_sample :
  snd (Sample.walk
         (Sample.root [Sample.text "hello"; Sample.esm; Sample.unknown;
                       Sample.badge])) =
  inr (jsx (Host "div") ∅
         [RArray [Sample.span "hello";
                  jsx (Custom 1)
                      (<["color" := JsString "red"]> (<["open" := JsTrue]> ∅))
                      [RArray [Sample.span "Hi"]]]]).
Proof.
  apply (proj1 (root_keeps_the_children_that_are_not_null
                  (Component := nat) (CompileFailure := unit))
           Sample.registry None
           [Sample.text "hello"; Sample.esm; Sample.unknown; Sample.badge]
           None None []
           [Sample.span "hello"; RNull; RNull;
            jsx (Custom 1)
                (<["color" := JsString "red"]> (<["open" := JsTrue]> ∅))
                [RArray [Sample.span "Hi"]]]).
  repeat constructor.
Defined.

(** C9 as stated fails: the frame [{1 + 1}] parses to a tree with an
    [mdxFlowExpression] node, its hydration throws "Unhandled MDX AST
    type", and the run neither yields for it nor ends in that error: it
    returns the hydration of the final document. *)
Lemma unhandled_type_in_a_frame_is_swallowed :
  snd (Sample.hydrated "{1 + 1}") = inl (UnhandledAstType Sample.expression)
  /\ yielded (Sample.run ["{1 + 1}"] "hello") = []
  /\ returned (Sample.run ["{1 + 1}"] "hello") = inr Sample.hello_hydrated.
Proof. repeat split; vm_compute; reflexivity. Qed.

(** C9, as amended, on the [mdxFlowExpression] node of [{1 + 1}], once as
    the final document and once as a frame. *)
Lemma unhandled_type_throws_and_surfaces_at_the_end_only_sample :
  Sample.walk Sample.expression = throw (UnhandledAstType Sample.expression)
  /\ returned (Sample.run ["hello"] "{1 + 1}") =
     inl (UnhandledAstType Sample.expression)
  /\ yielded (Sample.run (["hello"] ++ "{1 + 1}" :: []) "hello") =
     yielded (Sample.run (["hello"] ++ []) "hello").
Proof.
  destruct (unhandled_type_throws_and_surfaces_at_the_end_only
              Sample.collectComponents Sample.compile Sample.expression
              ltac:(intros H; apply list_elem_of_In in H; simpl in H;
                    intuition discriminate))
    as (Hwalk & Hfinal & Hframe).
  split; [apply Hwalk |]. split.
  - apply (Hfinal RNull tt (fun _ => mkRenderResult ["hello"] "{1 + 1}")
             (Sample.root [Sample.expression])); reflexivity.
  - apply (Hframe RNull tt ["hello"] [] "{1 + 1}" "hello"
             (Sample.root [Sample.expression])); reflexivity.
Defined.

(** * Further properties of the walker, of [hydrateMDX] and of the loop *)
Section MoreFacts.

Context {Component CompileFailure UsageExamples : Type}.
Variable collectComponents : UsageExamples -> gmap string Component.
Variable compile : string -> CompileFailure + Node.

Local Abbreviation Eff := (@Eff Component CompileFailure).
Local Abbreviation ReactNode := (@ReactNode Component).
Local Abbreviation LogEntry := (@LogEntry Component).
Local Abbreviation walk := (@convertAstToComponentRec Component CompileFailure).

(** Induction on a tree, with the property at hand for every child. *)
Lemma Node_children_ind (P : Node -> Prop) :
  (forall ty tn ch nm v attrs,
     Forall P ch -> P (mkNode ty tn ch nm v attrs)) ->
  forall ast, P ast.
Proof.
  intros step.
  refine (fix IH (ast : Node) : P ast :=
            match ast with
            | mkNode ty tn ch nm v attrs =>
                step ty tn ch nm v attrs
                  ((fix all (l : list Node) : Forall P l :=
                      match l with
                      | [] => @List.Forall_nil Node P
                      | c :: l' =>
                          @List.Forall_cons Node P c l' (IH c) (all l')
                      end) ch)
            end).
Qed.

Lemma mapEff_log {A B} (f : A -> Eff B) (Q : LogEntry -> Prop) (l : list A) :
  Forall (fun a => Forall Q (fst (f a))) l ->
  Forall Q (fst (mapEff f l)).
Proof.
  induction 1 as [| a l Ha _ IH]; cbn [mapEff]; [constructor |].
  rewrite fst_bind. apply Forall_app. split; [exact Ha |].
  destruct (snd (f a)) as [e | b]; [constructor |].
  rewrite fst_bind. apply Forall_app. split; [exact IH |].
  destruct (snd (mapEff f l)); constructor.
Qed.

Lemma reduce_log (attrs : list Attr) (acc : gmap string JsValue) :
  fst (reduce attrs acc : Eff _) = [].
Proof.
  revert acc. induction attrs as [| a rest IH]; intros acc;
    cbn [reduce]; [reflexivity |].
  unfold propsReducer. destruct (has_truthy_type (attr_value a));
    [reflexivity |].
  rewrite bind_ret_l. apply IH.
Qed.

(** Whatever holds of the warning about an unknown name holds of every
    record a walk writes. *)
Lemma walk_log_invariant components (Q : LogEntry -> Prop) :
  (forall nm, components !! toKey nm = None ->
              Q (mkLog warn (CtxComponent nm) (ignoringMessage nm))) ->
  forall ast, Forall Q (fst (walk components ast)).
Proof.
  intros HQ. induction ast as [ty tn ch nm v attrs IH] using Node_children_ind.
  assert (Hch : Forall Q (fst (mapEff (walk components) ch))).
  { apply mapEff_log, IH. }
  rewrite walk_unfold. cbn [type children name value attributes]. cbn zeta.
  destruct (String.eqb ty "root").
  { rewrite fst_bind. apply Forall_app. split; [exact Hch |].
    destruct (snd _); constructor. }
  destruct (String.eqb ty "element").
  { rewrite fst_bind. apply Forall_app. split; [exact Hch |].
    destruct (snd _); constructor. }
  destruct (_ || _).
  { rewrite fst_bind, reduce_log. cbn [app].
    destruct (snd (reduce attrs ∅)) as [e | props]; [constructor |].
    destruct (getComponent components (toKey nm)) eqn:Hnm.
    - rewrite fst_bind. apply Forall_app. split; [exact Hch |].
      destruct (snd _); constructor.
    - apply getComponent_None in Hnm as [Hnm _].
      cbn. constructor; [apply HQ, Hnm | constructor]. }
  destruct (String.eqb ty "text").
  { destruct (strictEq v newline); constructor. }
  destruct (String.eqb ty "mdxjsEsm"); constructor.
Qed.

(** X1: every record a walk writes to the logger is the warning about a
    component name that the registry lacks; the walker logs nothing else,
    and nothing at all about a name it knows. *)
Theorem walk_logs_unknown_component_warnings_only components ast :
  Forall (fun entry : LogEntry =>
            exists nm, components !! toKey nm = None /\
              entry = mkLog warn (CtxComponent nm) (ignoringMessage nm))
         (fst (walk components ast)).
Proof.
  apply walk_log_invariant. intros nm Hnm. exists nm. split; [exact Hnm |].
  reflexivity.
Qed.

(** X2: in a component tag, the first attribute (in document order) whose
    value is an expression object decides the outcome: the walk throws the
    "non-trivial prop" error for that attribute and logs nothing, whether
    or not the registry knows the name and whatever the children and the
    later attributes are. *)
Theorem first_expression_attribute_aborts_the_tag
    components ty tn ch nm v (literals rest : list Attr) (a : Attr) :
  ty = "mdxJsxTextElement" \/ ty = "mdxJsxFlowElement" ->
  (forall b, b ∈ literals -> has_truthy_type (attr_value b) = false) ->
  has_truthy_type (attr_value a) = true ->
  walk components (mkNode ty tn ch nm v (literals ++ a :: rest)) =
  throw (UnimplementedNonTrivialProp (attr_value a)).
Proof.
  intros Hty Hlit Ha. rewrite (walk_tag _ _ _ _ _ _ _ Hty).
  assert (Hred : forall acc,
            reduce (literals ++ a :: rest) acc =
            (throw (UnimplementedNonTrivialProp (attr_value a)) : Eff _)).
  { clear Hty. induction literals as [| b literals IH]; intros acc.
    - cbn [app reduce]. unfold propsReducer. rewrite Ha. reflexivity.
    - cbn [app reduce]. unfold propsReducer.
      rewrite (Hlit b) by constructor. rewrite bind_ret_l.
      apply IH. intros b' Hb'. apply Hlit. now constructor. }
  rewrite Hred. apply bind_throw.
Qed.

Lemma mapEff_first_failure {A B} (f : A -> Eff B) (before after : list A)
    (c : A) (rs : list B) (w : list LogEntry) (e : Error) :
  Forall2 (fun a b => snd (f a) = inr b) before rs ->
  f c = (w, inl e) ->
  mapEff f (before ++ c :: after) = (fst (mapEff f before) ++ w, inl e).
Proof.
  intros Hrs Hc. rewrite mapEff_app.
  pose proof (mapEff_results f before rs Hrs) as Hok.
  destruct (mapEff f before) as [w0 r0]. cbn [snd] in Hok. subst r0.
  cbn [fst mapEff]. rewrite Hc. reflexivity.
Qed.

(** X3: children are walked left to right and the first one whose walk
    throws ends the walk of its parent with that error: a root, an element
    and a registered component tag with literal attributes all pass the
    error on, having logged what the earlier children and the failing one
    logged; the later children are not walked. *)
Theorem first_failing_child_aborts_its_parent
    components (before after : list Node) (c : Node)
    (rs : list ReactNode) (w : list LogEntry) (e : Error) :
  Forall2 (fun c r => snd (walk components c) = inr r) before rs ->
  walk components c = (w, inl e) ->
  (forall tn nm v attrs,
     walk components (mkNode "root" tn (before ++ c :: after) nm v attrs) =
     (fst (mapEff (walk components) before) ++ w, inl e))
  /\ (forall tn nm v attrs,
     walk components (mkNode "element" tn (before ++ c :: after) nm v attrs) =
     (fst (mapEff (walk components) before) ++ w, inl e))
  /\ (forall ty tn nm v attrs (C : Component),
     ty = "mdxJsxTextElement" \/ ty = "mdxJsxFlowElement" ->
     (forall a, a ∈ attrs -> has_truthy_type (attr_value a) = false) ->
     components !! toKey nm = Some C ->
     walk components (mkNode ty tn (before ++ c :: after) nm v attrs) =
     (fst (mapEff (walk components) before) ++ w, inl e)).
Proof.
  intros Hrs Hc.
  pose proof (mapEff_first_failure (walk components) before after c rs w e
                Hrs Hc) as Hmap.
  split; [| split].
  - intros. rewrite walk_root, Hmap. reflexivity.
  - intros. rewrite walk_element, Hmap. reflexivity.
  - intros ty tn nm v attrs C Hty Hlit HC.
    rewrite (walk_tag _ _ _ _ _ _ _ Hty), (reduce_literals _ _ Hlit).
    rewrite bind_ret_l, (getComponent_own _ _ _ HC), Hmap. reflexivity.
Qed.

Lemma mapEff_results_inv {A B} (f : A -> Eff B) (l : list A) (rs : list B) :
  snd (mapEff f l) = inr rs ->
  Forall2 (fun a b => snd (f a) = inr b) l rs.
Proof.
  revert rs. induction l as [| a l IH]; intros rs; cbn [mapEff].
  - cbn. intros [= <-]. constructor.
  - rewrite snd_bind. destruct (snd (f a)) as [e | b] eqn:Ha; [discriminate |].
    rewrite snd_bind. destruct (snd (mapEff f l)) as [e | bs]; [discriminate |].
    cbn. intros [= <-]. constructor; [exact Ha | now apply IH].
Qed.

Lemma compact_has_no_null (rs : list ReactNode) :
  Forall (fun r => r = RNull \/ containsNull r = false) rs ->
  existsb containsNull (compact rs) = false.
Proof.
  unfold compact. induction 1 as [| r rs Hr _ IH]; [reflexivity |].
  cbn [List.filter]. destruct Hr as [-> | Hr]; [exact IH |].
  destruct (truthy r); [| exact IH].
  cbn [existsb]. rewrite Hr, IH. reflexivity.
Qed.

(** X4: [null] never survives inside what a walk returns: the result is
    either [null] itself (the whole tree was dropped) or a node in which
    [null] occurs nowhere, at any depth. *)
Theorem walk_result_holds_no_null components ast (r : ReactNode) :
  snd (walk components ast) = inr r ->
  r = RNull \/ containsNull r = false.
Proof.
  revert r. induction ast as [ty tn ch nm v attrs IH] using Node_children_ind.
  assert (Hkids : forall rs,
            snd (mapEff (walk components) ch) = inr rs ->
            existsb containsNull (compact rs) = false).
  { intros rs Hrs%mapEff_results_inv. apply compact_has_no_null.
    induction Hrs as [| c r ch rs Hcr _ IHrs]; [constructor |].
    apply Forall_cons_1 in IH as [Hc Hch].
    constructor; [now apply Hc | now apply IHrs]. }
  intros r. rewrite walk_unfold.
  cbn [type children name value attributes]. cbn zeta.
  destruct (String.eqb ty "root").
  { intros (rs & Hrs & ->)%bind_ret_inv. right. cbn.
    rewrite (Hkids rs Hrs). reflexivity. }
  destruct (String.eqb ty "element").
  { intros (rs & Hrs & ->)%bind_ret_inv. right. cbn.
    rewrite (Hkids rs Hrs). reflexivity. }
  destruct (_ || _).
  { rewrite snd_bind. destruct (snd (reduce attrs ∅)) as [e | props];
      [discriminate |].
    destruct (getComponent components (toKey nm)).
    - intros (rs & Hrs & ->)%bind_ret_inv. right. cbn.
      rewrite (Hkids rs Hrs). reflexivity.
    - cbn. intros [= <-]. now left. }
  destruct (String.eqb ty "text").
  { destruct (strictEq v newline); cbn; intros [= <-]; right;
      [reflexivity |].
    destruct v; reflexivity. }
  destruct (String.eqb ty "mdxjsEsm").
  { cbn. intros [= <-]. now left. }
  discriminate.
Qed.

(** X5: forgetting components never makes a walk fail: if a tree walks
    without an exception under a registry, it also does under any registry
    that knows no name the first one lacks. *)
Theorem walk_succeeds_under_a_smaller_registry
    (larger smaller : gmap string Component) ast :
  (forall k, is_Some (smaller !! k) -> is_Some (larger !! k)) ->
  (exists r : ReactNode, snd (walk larger ast) = inr r) ->
  exists r : ReactNode, snd (walk smaller ast) = inr r.
Proof.
  intros Hsub.
  induction ast as [ty tn ch nm v attrs IH] using Node_children_ind.
  assert (Hkids : forall rs : list ReactNode,
            snd (mapEff (walk larger) ch) = inr rs ->
            exists rs' : list ReactNode,
              snd (mapEff (walk smaller) ch) = inr rs').
  { intros rs Hrs%mapEff_results_inv.
    induction Hrs as [| c r ch rs Hcr _ IHrs].
    - exists []. reflexivity.
    - apply Forall_cons_1 in IH as [Hc Hch].
      destruct (Hc (ex_intro _ r Hcr)) as [r' Hr'].
      destruct (IHrs Hch) as [rs' Hrs'].
      exists (r' :: rs'). cbn [mapEff].
      rewrite snd_bind, Hr', snd_bind, Hrs'. reflexivity. }
  intros [r Hr]. revert Hr. rewrite !walk_unfold.
  cbn [type children name value attributes]. cbn zeta.
  destruct (String.eqb ty "root").
  { intros (rs & Hrs & ->)%bind_ret_inv. destruct (Hkids rs Hrs) as [rs' Hrs'].
    eexists. rewrite snd_bind, Hrs'. reflexivity. }
  destruct (String.eqb ty "element").
  { intros (rs & Hrs & ->)%bind_ret_inv. destruct (Hkids rs Hrs) as [rs' Hrs'].
    eexists. rewrite snd_bind, Hrs'. reflexivity. }
  destruct (_ || _).
  { rewrite !snd_bind. destruct (snd (reduce attrs ∅)) as [e | props];
      [discriminate |].
    destruct (getComponent smaller (toKey nm)) as [P |] eqn:Hsmall.
    - assert (Hlarge : exists P', getComponent larger (toKey nm) = Some P').
      { revert Hsmall. unfold getComponent.
        destruct (smaller !! toKey nm) as [C |] eqn:Hown.
        - intros _. destruct (Hsub (toKey nm)) as [C' HC']; [now exists C |].
          rewrite HC'. now eexists.
        - destruct (inObjectPrototype (toKey nm)); [| discriminate].
          intros _. destruct (larger !! toKey nm); now eexists. }
      destruct Hlarge as [P' HP'].
      rewrite HP'. intros (rs & Hrs & ->)%bind_ret_inv.
      destruct (Hkids rs Hrs) as [rs' Hrs'].
      eexists. rewrite snd_bind, Hrs'. reflexivity.
    - intros _. eexists. reflexivity. }
  destruct (String.eqb ty "text").
  { intros _. destruct (strictEq v newline); eexists; reflexivity. }
  destruct (String.eqb ty "mdxjsEsm").
  { intros _. eexists. reflexivity. }
  discriminate.
Qed.

Lemma hydrateMDX_result_log mdx components :
  fst (hydrateMDX compile mdx components) =
  match compile mdx with
  | inl e => []
  | inr ast =>
      match (convertAstToComponent ast components : Eff ReactNode) with
      | (w, inl e) => w
      | (w, inr node) =>
          w ++ mkLog warn (CtxHydrating node ast) "Hydrating MDX" :: w
      end
  end.
Proof.
  unfold hydrateMDX, awaitCompile.
  destruct (compile mdx) as [e | ast]; [reflexivity |].
  rewrite bind_ret_l.
  destruct (convertAstToComponent ast components) as [w [e | node]];
    [reflexivity |].
  cbn. now rewrite app_nil_r.
Qed.

(** X6: one hydration walks the tree twice.  When the walk succeeds,
    whatever it logs is logged twice, before and after the one "Hydrating
    MDX" record; when the walk throws, the records of the first walk are
    all that is written; when the compiler rejects the text, nothing is. *)
Theorem hydrateMDX_outcomes mdx components :
  hydrateMDX compile mdx components =
  match compile mdx return Eff ReactNode with
  | inl e => throw (CompileRejected e)
  | inr ast =>
      match (convertAstToComponent ast components : Eff ReactNode) with
      | (w, inl e) => (w, inl e)
      | (w, inr node) =>
          (w ++ mkLog warn (CtxHydrating node ast) "Hydrating MDX" :: w,
           inr (jsx AIReact ∅ [node]))
      end
  end.
Proof.
  unfold hydrateMDX, awaitCompile.
  destruct (compile mdx) as [e | ast]; [apply bind_throw |].
  rewrite bind_ret_l.
  destruct (convertAstToComponent ast components) as [w [e | node]];
    [reflexivity |].
  cbn. now rewrite app_nil_r.
Qed.

Lemma hydrateMDX_logs_warnings mdx components :
  Forall (fun entry : LogEntry => isTrace entry = false)
         (fst (hydrateMDX compile mdx components)).
Proof.
  rewrite hydrateMDX_result_log.
  destruct (compile mdx) as [e | ast]; [constructor |].
  pose proof (walk_log_invariant components
                (fun entry => isTrace entry = false)
                (fun _ _ => eq_refl) ast) as Hw.
  unfold convertAstToComponent.
  destruct (walk components ast) as [w [e | node]]; cbn [fst] in *;
    [exact Hw |].
  apply Forall_app. split; [exact Hw |]. constructor; [reflexivity | exact Hw].
Qed.

Lemma filter_all_false {A} (f : A -> bool) (l : list A) :
  Forall (fun a => f a = false) l -> List.filter f l = [].
Proof.
  induction 1 as [| a l Ha _ IH]; [reflexivity |].
  cbn. now rewrite Ha.
Qed.

(** X7: a hydrating run writes exactly one [trace] record per frame, in
    the order of the frames: "Yielding parsable frame" for a frame that
    hydrated and "Not yielding unparsable frame" for one that did not; the
    final document adds none. *)
Theorem one_trace_record_per_frame ch ue render :
  List.filter isTrace
    (logged (MdxChatCompletion collectComponents compile
               (mkProps ch ue (Some true)) render)) =
  map (fun frame =>
         mkLog trace (CtxFrame frame)
           (match snd (hydrateMDX compile frame (collectComponents ue)) with
            | inr _ => "Yielding parsable frame"
            | inl _ => "Not yielding unparsable frame"
            end))
      (frames (render completion)).
Proof.
  unfold MdxChatCompletion. cbn [hydrate falsy usageExamples].
  set (components := collectComponents ue).
  assert (Hloop : forall fs,
            List.filter isTrace (fst (forAwait compile components fs)) =
            map (fun frame =>
                   mkLog trace (CtxFrame frame)
                     (match snd (hydrateMDX compile frame components) with
                      | inr _ => "Yielding parsable frame"
                      | inl _ => "Not yielding unparsable frame"
                      end)) fs).
  { induction fs as [| f fs IH]; [reflexivity |].
    cbn [forAwait map].
    pose proof (hydrateMDX_logs_warnings f components) as Hw.
    destruct (hydrateMDX compile f components) as [w [e | node]];
      destruct (forAwait compile components fs) as [w' ys];
      cbn [fst snd] in *;
      rewrite List.filter_app, (filter_all_false _ _ Hw);
      cbn; rewrite IH; reflexivity. }
  specialize (Hloop (frames (render completion))).
  pose proof (hydrateMDX_logs_warnings (final (render completion)) components)
    as Hfinal.
  destruct (forAwait compile components (frames (render completion)))
    as [w ys].
  destruct (hydrateMDX compile (final (render completion)) components)
    as [w' r].
  cbn [logged fst] in *.
  rewrite List.filter_app, (filter_all_false _ _ Hfinal), app_nil_r.
  exact Hloop.
Qed.

(** X8: the values a hydrating run yields are the hydrations of the frames
    that hydrate, in the order of the frames and one for each: so there
    are at most as many as frames, and each is [<AI.React>] around the walk
    of the tree the compiler gave for a frame of the stream. *)
Theorem yields_are_the_hydrated_frames_in_order ch ue render :
  let components := collectComponents ue in
  let out := MdxChatCompletion collectComponents compile
               (mkProps ch ue (Some true)) render in
  yielded out =
    omap (fun frame =>
            match snd (hydrateMDX compile frame components)
            return option ReactNode with
            | inr node => Some node
            | inl _ => None
            end) (frames (render completion))
  /\ length (yielded out) <= length (frames (render completion))
  /\ Forall (fun y =>
       exists frame ast node,
         frame ∈ frames (render completion)
         /\ compile frame = inr ast
         /\ snd (walk components ast) = inr node
         /\ y = jsx AIReact ∅ [node]) (yielded out).
Proof.
  intros components out.
  assert (Hy : yielded out =
               omap (fun frame =>
                       match snd (hydrateMDX compile frame components)
                       return option ReactNode with
                       | inr node => Some node
                       | inl _ => None
                       end) (frames (render completion))).
  { unfold out.
    destruct (MdxChatCompletion_hydrating collectComponents compile
                ch ue render) as [-> _].
    apply forAwait_yields. }
  split; [exact Hy |]. rewrite Hy. clear Hy out.
  induction (frames (render completion)) as [| f fs [IHlen IHall]].
  - split; [reflexivity | constructor].
  - cbn [omap list_omap]. rewrite hydrateMDX_result.
    destruct (compile f) as [e | ast] eqn:Hc.
    + split; [cbn [length] in *; lia |].
      eapply Forall_impl; [exact IHall |].
      intros y (frame & ast & node & Hin & H). exists frame, ast, node.
      split; [now constructor | exact H].
    + unfold convertAstToComponent.
      destruct (snd (walk components ast)) as [e | node] eqn:Hw.
      * split; [cbn [length] in *; lia |].
        eapply Forall_impl; [exact IHall |].
        intros y (frame & ast' & node & Hin & H). exists frame, ast', node.
        split; [now constructor | exact H].
      * split; [cbn [length] in *; lia |].
        constructor.
        -- exists f, ast, node. repeat split; [constructor | exact Hc | exact Hw].
        -- eapply Forall_impl; [exact IHall |].
           intros y (frame & ast' & node' & Hin & H). exists frame, ast', node'.
           split; [now constructor | exact H].
Qed.

Lemma filter_by_name_is_short (attrs : list Attr) (k : string) :
  NoDup (attr_name <$> attrs) ->
  length (filter (fun a => attr_name a = k) attrs) <= 1.
Proof.
  induction attrs as [| a attrs IH]; intros Hnd; [cbn; lia |].
  rewrite fmap_cons in Hnd. apply NoDup_cons in Hnd as [Hnotin Hnd].
  rewrite filter_cons. case_decide as Hk; [| now apply IH].
  destruct (filter (fun a => attr_name a = k) attrs) as [| b rest] eqn:Hf;
    [cbn; lia |].
  exfalso. apply Hnotin.
  assert (Hb : b ∈ filter (fun a => attr_name a = k) attrs).
  { rewrite Hf. constructor. }
  apply list_elem_of_filter in Hb as [Hbk Hb].
  rewrite Hk, <- Hbk. apply list_elem_of_fmap. now exists b.
Qed.

Lemma last_by_name_of_permutation (attrs attrs' : list Attr) (k : string) :
  attrs ≡ₚ attrs' ->
  NoDup (attr_name <$> attrs) ->
  last (filter (fun a => attr_name a = k) attrs) =
  last (filter (fun a => attr_name a = k) attrs').
Proof.
  intros Hperm Hnd.
  pose proof (filter_by_name_is_short attrs k Hnd) as Hlen.
  pose proof (filter_Permutation (fun a => attr_name a = k) _ _ Hperm)
    as Hfilter.
  destruct (filter (fun a => attr_name a = k) attrs) as [| a [| b rest]].
  - apply Permutation_nil_l in Hfilter. now rewrite Hfilter.
  - apply Permutation_singleton_l in Hfilter. now rewrite <- Hfilter.
  - cbn in Hlen. lia.
Qed.

(** X14: when no attribute name occurs twice and every attribute is
    literal, the order in which a component tag lists its attributes does
    not matter: any rearrangement of them walks to the same result and the
    same log. *)
Theorem attribute_order_is_irrelevant_without_repeats
    components ty tn ch nm v (attrs attrs' : list Attr) :
  ty = "mdxJsxTextElement" \/ ty = "mdxJsxFlowElement" ->
  attrs ≡ₚ attrs' ->
  NoDup (attr_name <$> attrs) ->
  (forall a, a ∈ attrs -> has_truthy_type (attr_value a) = false) ->
  walk components (mkNode ty tn ch nm v attrs) =
  walk components (mkNode ty tn ch nm v attrs').
Proof.
  intros Hty Hperm Hnd Hlit.
  assert (Hlit' : forall a, a ∈ attrs' ->
                            has_truthy_type (attr_value a) = false).
  { intros a Ha. apply Hlit. now rewrite Hperm. }
  rewrite !(walk_tag _ _ _ _ _ _ _ Hty).
  rewrite (reduce_literals _ _ Hlit), (reduce_literals _ _ Hlit').
  rewrite !bind_ret_l.
  assert (Hprops :
    foldl (fun m a => setProperty m (attr_name a) (orTrue (attr_value a)))
          (∅ : gmap string JsValue) attrs =
    foldl (fun m a => setProperty m (attr_name a) (orTrue (attr_value a)))
          ∅ attrs').
  { apply map_eq. intros k. rewrite !foldl_insert_lookup.
    now rewrite (last_by_name_of_permutation attrs attrs' k Hperm Hnd). }
  rewrite Hprops. reflexivity.
Qed.

End MoreFacts.

(** * Properties of the Fixie client *)
Section FixieFacts.

Import Fixie.

Context {Num FetchFailure JsonFailure Payload URL : Type}.
Variable numberTruthy : Num -> bool.
Variable process : Process.
Variable fetch : Request -> FetchFailure + @Response JsonFailure Payload.
Variable stringify : @Value Num -> string.
Variable newURL : string -> option URL.
Variable setSearch : URL -> string -> URL.
Variable setHash : URL -> string -> URL.
Variable URLtoString : URL -> string.

Local Abbreviation Error := (@Fixie.Error FetchFailure JsonFailure).
Local Abbreviation Create := (@Fixie.Create FetchFailure JsonFailure process).
Local Abbreviation request :=
  (Fixie.request numberTruthy process fetch stringify).
Local Abbreviation sanitizeAll :=
  (@Fixie.sanitizeAll FetchFailure JsonFailure URL
     newURL setSearch setHash URLtoString).
Local Abbreviation addCorpusSource :=
  (Fixie.addCorpusSource numberTruthy process fetch stringify
     newURL setSearch setHash URLtoString).

Lemma truthy_string_nonempty (s : string) :
  truthy_string s = true <-> s <> "".
Proof. destruct s; cbn; split; congruence. Qed.

(** What [request] hands to [fetch], whatever [fetch] answers. *)
Lemma request_sent this path bodyData :
  sent (request this path bodyData) =
  [ if truthyValue numberTruthy bodyData then
      mkRequest (url this +:+ path) "POST"
        [("Authorization", bearer this); ("Content-Type", "application/json")]
        (Some (stringify bodyData))
    else
      mkRequest (url this +:+ path) "GET"
        [("Authorization", bearer this)] None ].
Proof.
  unfold Fixie.request. cbn zeta.
  destruct (fetch _) as [e | res]; [reflexivity |].
  destruct (negb (ok res)); reflexivity.
Qed.

(** X9: [Create] succeeds exactly when a non-empty key is at hand: the one
    passed or, when none is passed, the environment variable
    [FIXIE_API_KEY]; an empty key that was passed is not replaced by the
    environment's.  The client it returns holds the url and the key as
    they were passed, not the key found in the environment. *)
Theorem Create_needs_a_key_and_keeps_the_one_passed url apiKey c :
  Create url apiKey = inr c <->
  c = mkClient url apiKey /\
  match apiKey with
  | Some k => k <> ""
  | None =>
      exists env k, process = ProcessEnv env /\
        env !! "FIXIE_API_KEY" = Some k /\ k <> ""
  end.
Proof.
  unfold Fixie.Create, apiKeyToUse, missing.
  destruct apiKey as [k |].
  - destruct (truthy_string k) eqn:Hk; cbn.
    + apply truthy_string_nonempty in Hk. split.
      * intros [= <-]. split; [reflexivity | exact Hk].
      * intros [-> _]. reflexivity.
    + split; [discriminate |]. intros [_ Hne].
      apply truthy_string_nonempty in Hne. congruence.
  - destruct process as [| | env].
    + split; [discriminate |]. intros [_ (env & k & Hp & _)]. discriminate.
    + split; [discriminate |]. intros [_ (env & k & Hp & _)]. discriminate.
    + destruct (env !! "FIXIE_API_KEY") as [k |] eqn:Henv.
      * destruct (truthy_string k) eqn:Hk; cbn.
        -- apply truthy_string_nonempty in Hk. split.
           ++ intros [= <-]. split; [reflexivity |].
              exists env, k. repeat split; assumption.
           ++ intros [-> _]. reflexivity.
        -- split; [discriminate |].
           intros [_ (env' & k' & [= <-] & Hk' & Hne)].
           rewrite Henv in Hk'. injection Hk' as <-.
           apply truthy_string_nonempty in Hne. congruence.
      * split; [discriminate |].
        intros [_ (env' & k' & [= <-] & Hk' & _)]. congruence.
Qed.

(** X10: every request of a client that [Create] returned carries the key
    that was passed to [Create] in its [Authorization] header; for a client
    created from the environment variable alone the header is the text
    "Bearer undefined", whatever the variable holds. *)
Theorem request_sends_the_key_passed_to_Create url apiKey c path bodyData :
  Create url apiKey = inr c ->
  exists req,
    sent (request c path bodyData) = [req]
    /\ req_url req = url +:+ path
    /\ head (headers req) =
       Some ("Authorization",
             match apiKey with
             | Some k => "Bearer " +:+ k
             | None => "Bearer undefined"
             end).
Proof.
  intros Hc.
  assert (c = mkClient url apiKey) as ->.
  { revert Hc. unfold Fixie.Create.
    destruct (apiKeyToUse process apiKey) as [e | k]; [discriminate |].
    destruct (missing k); [discriminate |]. now intros [= <-]. }
  rewrite request_sent. eexists. split; [reflexivity |].
  destruct (truthyValue numberTruthy bodyData), apiKey; split; reflexivity.
Qed.

(** X11: each of the nine reading endpoints hands [fetch] exactly one
    request: a [GET] without a body, with the [Authorization] header as
    its only header, to the client's url followed by a path under
    [/api/]. *)
Theorem reading_endpoints_send_one_GET
    this (corpusId sourceId jobId docId : string) :
  Forall (fun run : @Run Num FetchFailure JsonFailure Payload =>
            exists path,
              String.prefix "/api/" path = true /\
              sent run =
              [mkRequest (url this +:+ path) "GET"
                 [("Authorization", bearer this)] None])
    [ userInfo numberTruthy process fetch stringify this;
      listCorpora numberTruthy process fetch stringify this;
      getCorpus numberTruthy process fetch stringify this corpusId;
      listCorpusSources numberTruthy process fetch stringify this corpusId;
      getCorpusSource numberTruthy process fetch stringify this
        corpusId sourceId;
      listCorpusSourceJobs numberTruthy process fetch stringify this
        corpusId sourceId;
      getCorpusSourceJob numberTruthy process fetch stringify this
        corpusId sourceId jobId;
      listCorpusDocs numberTruthy process fetch stringify this corpusId;
      getCorpusDoc numberTruthy process fetch stringify this corpusId docId ].
Proof.
  unfold userInfo, listCorpora, getCorpus, listCorpusSources,
    getCorpusSource, listCorpusSourceJobs, getCorpusSourceJob,
    listCorpusDocs, getCorpusDoc.
  repeat apply Forall_cons_2; try apply Forall_nil_2;
    eexists; (split; [| rewrite request_sent; reflexivity]); reflexivity.
Qed.

(** X12: [createCorpus], [queryCorpus] and [refreshCorpusSource] always
    send one [POST] with a JSON body and the [Content-Type] header, to a
    path under [/api/], also when every optional argument is left out:
    the body is an object literal, which is truthy even if all its fields
    are [undefined]. *)
Theorem writing_endpoints_send_one_POST
    this (corpusId sourceId query : string) (name description : option string)
    (maxChunks : option Num) (force : option bool) :
  Forall (fun run : @Run Num FetchFailure JsonFailure Payload =>
            exists path fields,
              String.prefix "/api/" path = true /\
              sent run =
              [mkRequest (url this +:+ path) "POST"
                 [("Authorization", bearer this);
                  ("Content-Type", "application/json")]
                 (Some (stringify (VObject fields)))])
    [ createCorpus numberTruthy process fetch stringify this
        name description;
      queryCorpus numberTruthy process fetch stringify this
        corpusId query maxChunks;
      refreshCorpusSource numberTruthy process fetch stringify this
        corpusId sourceId force ].
Proof.
  unfold createCorpus, queryCorpus, refreshCorpusSource. cbn zeta.
  repeat apply Forall_cons_2; try apply Forall_nil_2;
    eexists; eexists;
    (split; [| rewrite request_sent; reflexivity]); reflexivity.
Qed.

Lemma sanitizeAll_first_invalid (before after : list string) (bad : string) :
  Forall (fun u => is_Some (newURL u)) before ->
  newURL bad = None ->
  sanitizeAll (before ++ bad :: after) = inl (InvalidURL bad).
Proof.
  intros Hbefore Hbad.
  induction Hbefore as [| u before [o Ho] _ IH]; cbn [app Fixie.sanitizeAll].
  - unfold sanitize. rewrite Hbad. reflexivity.
  - unfold sanitize at 1. rewrite Ho, IH. reflexivity.
Qed.

Lemma sanitizeAll_valid (startUrls : list string) (urlObjs : list URL) :
  Forall2 (fun u o => newURL u = Some o) startUrls urlObjs ->
  sanitizeAll startUrls =
  inr (map (fun o => URLtoString (setHash (setSearch o "") "")) urlObjs).
Proof.
  induction 1 as [| u o startUrls urlObjs Ho _ IH];
    cbn [Fixie.sanitizeAll map]; [reflexivity |].
  unfold sanitize at 1. rewrite Ho, IH. reflexivity.
Qed.

(** X13: [addCorpusSource] parses every start URL before it sends
    anything.  If one does not parse, the call ends with the [TypeError]
    of the first such URL and no request is sent; if all parse, one [POST]
    goes to the [sources] path of the corpus, and its [start_urls] are the
    given URLs, in the given order, each with its query and fragment set
    to the empty string. *)
Theorem addCorpusSource_cleans_every_url_or_sends_nothing
    this (corpusId : string) (includeGlobs excludeGlobs : option (list string))
    (maxDocuments maxDepth : option Num) (description : option string) :
  (forall (before after : list string) (bad : string),
     Forall (fun u => is_Some (newURL u)) before ->
     newURL bad = None ->
     addCorpusSource this corpusId (before ++ bad :: after)
       includeGlobs excludeGlobs maxDocuments maxDepth description =
     mkRun [] [] (inl (InvalidURL bad)))
  /\
  (forall (startUrls : list string) (urlObjs : list URL),
     Forall2 (fun u o => newURL u = Some o) startUrls urlObjs ->
     sent (addCorpusSource this corpusId startUrls
             includeGlobs excludeGlobs maxDocuments maxDepth description) =
     [mkRequest (url this +:+ "/api/v1/corpora/" +:+ corpusId +:+ "/sources")
        "POST"
        [("Authorization", bearer this); ("Content-Type", "application/json")]
        (Some (stringify
           (VObject
              [("corpus_id", VString corpusId);
               ("source",
                VObject
                  [("description", optString description);
                   ("corpus_id", VString corpusId);
                   ("load_spec",
                    VObject
                      [("max_documents", optNumber maxDocuments);
                       ("web",
                        VObject
                          [("start_urls",
                            VArray
                              (map (fun o =>
                                      VString
                                        (URLtoString
                                           (setHash (setSearch o "") "")))
                                   urlObjs));
                           ("max_depth", optNumber maxDepth);
                           ("include_glob_patterns",
                            optStrings includeGlobs);
                           ("exclude_glob_patterns",
                            optStrings excludeGlobs)])])])])))]).
Proof.
  split.
  - intros before after bad Hbefore Hbad. unfold Fixie.addCorpusSource.
    rewrite (sanitizeAll_first_invalid before after bad Hbefore Hbad).
    reflexivity.
  - intros startUrls urlObjs Hall. unfold Fixie.addCorpusSource.
    rewrite (sanitizeAll_valid startUrls urlObjs Hall). cbn zeta.
    rewrite request_sent. cbn [truthyValue]. rewrite map_map. reflexivity.
Qed.

(** X15: a request resolves to a payload exactly when [fetch] resolved the
    one request that was sent with a response whose [ok] is true and whose
    [json()] resolved to that payload; a response that is not [ok] never
    yields data. *)
Theorem request_returns_a_payload_only_from_an_ok_response
    this path bodyData (payload : Payload) :
  result (request this path bodyData) = inr payload <->
  exists req res,
    sent (request this path bodyData) = [req]
    /\ fetch req = inr res
    /\ ok res = true
    /\ json res = inr payload.
Proof.
  rewrite request_sent. unfold Fixie.request. cbn zeta.
  set (req := if truthyValue numberTruthy bodyData then _ else _).
  destruct (fetch req) as [e | res] eqn:Hfetch.
  - split; [discriminate |].
    intros (req' & res & [= <-] & Hres & _). congruence.
  - destruct (ok res) eqn:Hok; cbn.
    + destruct (json res) as [e | p] eqn:Hjson.
      * split; [discriminate |].
        intros (req' & res' & [= <-] & Hres & _ & Hj).
        rewrite Hfetch in Hres. injection Hres as <-. congruence.
      * split.
        -- intros [= <-]. exists req, res. repeat split; assumption.
        -- intros (req' & res' & [= <-] & Hres & _ & Hj).
           rewrite Hfetch in Hres. injection Hres as <-. congruence.
    + split; [discriminate |].
      intros (req' & res' & [= <-] & Hres & Hok' & _).
      rewrite Hfetch in Hres. injection Hres as <-. congruence.
Qed.

End FixieFacts.

(** * The further properties on the sample inputs *)

(** X2 on a tag the registry does not know, with [color='red'] before
    [b={null}] and a child that no walk could handle. *)
Lemma first_expression_attribute_aborts_the_tag_sample :
  Sample.walk
    (Sample.tag "Nobody"
       ([Sample.color_red] ++ Sample.b_null :: [Sample.bare_open])
       [Sample.expression]) =
  throw (UnimplementedNonTrivialProp (attr_value Sample.b_null)).
Proof.
  apply (first_expression_attribute_aborts_the_tag (CompileFailure := unit)
           Sample.registry "mdxJsxFlowElement" None [Sample.expression]
           (Some "Nobody") None [Sample.color_red] [Sample.bare_open]
           Sample.b_null (or_intror eq_refl)).
  - intros b Hb. apply list_elem_of_In in Hb. simpl in Hb.
    destruct Hb as [<- | []]. reflexivity.
  - reflexivity.
Defined.

(** X3 on a root whose second child is [{1 + 1}]: the unknown tag after it
    is not walked, so no warning is logged. *)
Lemma first_failing_child_aborts_its_parent_sample :
  Sample.walk
    (Sample.root ([Sample.text "hello"] ++
                  Sample.expression :: [Sample.unknown])) =
  ([], inl (UnhandledAstType Sample.expression)).
Proof.
  exact (proj1 (first_failing_child_aborts_its_parent
                  (CompileFailure := unit) Sample.registry
                  [Sample.text "hello"] [Sample.unknown] Sample.expression
                  [Sample.span "hello"] [] (UnhandledAstType Sample.expression)
                  ltac:(repeat constructor) eq_refl)
           None None None []).
Defined.

(** X4 on a root over a text, an import, an unknown tag and a known one. *)
Lemma walk_result_holds_no_null_sample :
  exists r,
    snd (Sample.walk
           (Sample.root [Sample.text "hello"; Sample.esm; Sample.unknown;
                         Sample.badge])) = inr r
    /\ containsNull r = false.
Proof.
  eexists. split; [reflexivity |].
  destruct (walk_result_holds_no_null (CompileFailure := unit)
              Sample.registry
              (Sample.root [Sample.text "hello"; Sample.esm; Sample.unknown;
                            Sample.badge])
              _ eq_refl) as [H | H]; [discriminate H | exact H].
Defined.

(** X5: the document [<Badge ...>Hi</Badge>] walks with [Badge] registered,
    hence also with an empty registry. *)
Lemma walk_succeeds_under_a_smaller_registry_sample :
  exists r : @ReactNode nat,
    snd (@convertAstToComponentRec nat unit ∅ (Sample.root [Sample.badge])) =
    inr r.
Proof.
  apply (walk_succeeds_under_a_smaller_registry (CompileFailure := unit)
           Sample.registry ∅ (Sample.root [Sample.badge])).
  - intros k [x Hx]. rewrite lookup_empty in Hx. discriminate Hx.
  - eexists. reflexivity.
Defined.

(** X9 on an environment that holds a key: [Create] without a key succeeds,
    and the client holds no key. *)
Lemma Create_needs_a_key_and_keeps_the_one_passed_sample :
  SampleClient.Create "https://app.fixie.ai" None =
  inr (Fixie.mkClient "https://app.fixie.ai" None).
Proof.
  apply (proj2 (Create_needs_a_key_and_keeps_the_one_passed
                  (FetchFailure := unit) (JsonFailure := unit)
                  SampleClient.process "https://app.fixie.ai" None
                  (Fixie.mkClient "https://app.fixie.ai" None))).
  split; [reflexivity |].
  exists {[ "FIXIE_API_KEY" := "secret" ]}, "secret".
  split; [reflexivity |]. split; [reflexivity | discriminate].
Defined.

(** X10 on the same environment: the key "secret" is not in the header. *)
Lemma request_sends_the_key_passed_to_Create_sample :
  exists req,
    Fixie.sent (SampleClient.request
                  (Fixie.mkClient "https://app.fixie.ai" None)
                  "/api/user" Fixie.VUndefined) = [req]
    /\ Fixie.req_url req = "https://app.fixie.ai/api/user"
    /\ head (Fixie.headers req) = Some ("Authorization", "Bearer undefined").
Proof.
  apply (request_sends_the_key_passed_to_Create
           SampleClient.numberTruthy SampleClient.process
           SampleClient.fetch SampleClient.stringify
           "https://app.fixie.ai" None
           (Fixie.mkClient "https://app.fixie.ai" None)
           "/api/user" Fixie.VUndefined).
  vm_compute. reflexivity.
Defined.

(** X13 on three start URLs of which the second does not parse. *)
Lemma addCorpusSource_cleans_every_url_or_sends_nothing_sample :
  SampleClient.addCorpusSource (Fixie.mkClient "https://app.fixie.ai" None)
    (["https://a.example/docs?page=2"] ++
     "not a url" :: ["https://b.example/#top"]) =
  Fixie.mkRun [] [] (inl (Fixie.InvalidURL "not a url")).
Proof.
  apply (proj1 (addCorpusSource_cleans_every_url_or_sends_nothing
                  SampleClient.numberTruthy SampleClient.process
                  SampleClient.fetch SampleClient.stringify
                  SampleClient.newURL SampleClient.setPart
                  SampleClient.setPart SampleClient.URLtoString
                  (Fixie.mkClient "https://app.fixie.ai" None) "c1"
                  None None None None None)).
  - repeat constructor. eexists. reflexivity.
  - reflexivity.
Defined.

(** X14 on [color='red' open] against [open color='red']. *)
Lemma attribute_order_is_irrelevant_without_repeats_sample :
  Sample.walk (Sample.tag "Badge" [Sample.color_red; Sample.bare_open] []) =
  Sample.walk (Sample.tag "Badge" [Sample.bare_open; Sample.color_red] []).
Proof.
  apply (attribute_order_is_irrelevant_without_repeats
           (CompileFailure := unit) Sample.registry "mdxJsxFlowElement"
           None [] (Some "Badge") None
           [Sample.color_red; Sample.bare_open]
           [Sample.bare_open; Sample.color_red] (or_intror eq_refl)).
  - apply perm_swap.
  - repeat constructor; intros H%list_elem_of_In; simpl in H;
      intuition discriminate.
  - intros a Ha. apply list_elem_of_In in Ha. simpl in Ha.
    destruct Ha as [<- | [<- | []]]; reflexivity.
Defined.
